(** * NepaliCorpusCrawler: a shallow embedding of [crawler.py]

    The development follows the source file top-down: the text helpers
    ([clean_text], [normalize_url]), the link and text extractors, the
    checkpoint store ([save_state], [load_state]) and the crawl driver
    ([create_nepali_corpus]).

    Python values are modelled as follows.
    - A [str] is the list of its Unicode code points ([pystr]).
    - An [int] is a [Z]; a [set] of strings is a [gset pystr]; the frontier
      list of [(url, depth)] tuples is a [list (pystr * Z)].
    - The network, the language detector and the signal state are an abstract
      world [W] threaded through every call that touches them.
    - The file system is a pair of finite maps from paths to contents, one
      for the page files and one for the state files; whether a write
      succeeds is decided by the world. *)

From Stdlib Require Import ZArith String Ascii List Bool Lia DecimalString DecimalZ.
From stdpp Require Import base option list gmap sets sorting.

Local Open Scope Z_scope.
#[local] Set Warnings "-clear-no-such-hyp".

(** ** Python strings *)

Definition pystr := list Z.

(** The code point of every byte of a literal written in the source. *)
Definition py (s : string) : pystr :=
  map (fun a => Z.of_N (N_of_ascii a)) (list_ascii_of_string s).

(** [str.isspace] on one code point; it is also what [\s] matches in a [str]
    pattern and what [str.strip()] removes. *)
Definition is_space (c : Z) : bool :=
  ((9 <=? c) && (c <=? 13)) || ((28 <=? c) && (c <=? 32))
  || (c =? 133) || (c =? 160) || (c =? 5760)
  || ((8192 <=? c) && (c <=? 8202))
  || (c =? 8232) || (c =? 8233) || (c =? 8239) || (c =? 8287) || (c =? 12288).

(** The line boundaries of [str.splitlines]. *)
Definition is_linebreak (c : Z) : bool :=
  ((10 <=? c) && (c <=? 13)) || ((28 <=? c) && (c <=? 30))
  || (c =? 133) || (c =? 8232) || (c =? 8233).

(** [U+0900 .. U+097F] *)
Definition is_devanagari (c : Z) : bool := (2304 <=? c) && (c <=? 2431).

Definition danda : Z := 2404.          (* U+0964 *)
Definition question_mark : Z := 63.
Definition exclamation_mark : Z := 33.

(** The complement of the character class [[^ऀ-ॿ\s।?!]]. *)
Definition retained (c : Z) : bool :=
  is_devanagari c || is_space c
  || (c =? danda) || (c =? question_mark) || (c =? exclamation_mark).

(** [re.sub(r'[^ऀ-ॿ\s।?!]', '', text)] *)
Definition clean_text (text : pystr) : pystr := filter (fun c => retained c = true) text.

(** The characters the pattern of [clean_text] leaves in a text. *)
Definition allowed_char (c : Z) : Prop :=
  2304 <= c <= 2431 \/ is_space c = true \/
  c = danda \/ c = question_mark \/ c = exclamation_mark.

(** [sep.join(parts)] *)
Fixpoint join (sep : pystr) (parts : list pystr) : pystr :=
  match parts with
  | [] => []
  | [p] => p
  | p :: rest => p ++ sep ++ join sep rest
  end.

Fixpoint lstrip (s : pystr) : pystr :=
  match s with
  | c :: s' => if is_space c then lstrip s' else s
  | [] => []
  end.

(** [s.strip()] *)
Definition strip (s : pystr) : pystr := rev (lstrip (rev (lstrip s))).

(** [s.splitlines()]: [cur] is the line being read, reversed; [after_cr]
    says the previous character was a carriage return, so that a line feed
    right after it belongs to the same boundary. *)
Fixpoint splitlines_from (after_cr : bool) (cur : pystr) (s : pystr) : list pystr :=
  match s with
  | [] => match cur with [] => [] | _ => [rev cur] end
  | c :: s' =>
      if after_cr && (c =? 10) then splitlines_from false cur s'
      else if is_linebreak c then rev cur :: splitlines_from (c =? 13) [] s'
      else splitlines_from false (c :: cur) s'
  end.

Definition splitlines (s : pystr) : list pystr := splitlines_from false [] s.

(** [needle in hay] *)
Fixpoint starts_with (p s : pystr) : bool :=
  match p, s with
  | [], _ => true
  | a :: p', b :: s' => (a =? b) && starts_with p' s'
  | _ :: _, [] => false
  end.

Fixpoint contains (needle hay : pystr) : bool :=
  starts_with needle hay ||
  match hay with
  | [] => false
  | _ :: hay' => contains needle hay'
  end.

(** [str(n)] for an [int] *)
Definition str_of_int (n : Z) : pystr := py (NilEmpty.string_of_int (Z.to_int n)).

(** ** URL normalisation *)

Definition slash : Z := 47.

(** [re.match(r'^https?:/[^/]', url)]: the length of the [https?:] prefix
    when the pattern matches. *)
Definition malformed_scheme (url : pystr) : option nat :=
  let after (n : nat) :=
    match drop n url with
    | s :: c :: _ => (s =? slash) && negb (c =? slash)
    | _ => false
    end in
  if starts_with (py "https:") url && after 6%nat then Some 6%nat
  else if starts_with (py "http:") url && after 5%nat then Some 5%nat
  else None.

(** [normalize_url]: the substitution [\1//\2] rewrites the one match at the
    start of the string, doubling the slash after the scheme. *)
Definition normalize_url (url : pystr) : pystr :=
  match malformed_scheme url with
  | Some n => take n url ++ [slash; slash] ++ drop (S n) url
  | None => url
  end.


(** ** Configuration constants *)

Definition URL_PATTERNS : list pystr := [py "https://www\.nepalpress\.com/(2023|2024)"].
(** [urlparse(TARGET_URL).netloc] *)
Definition TARGET_DOMAIN : pystr := py "www.nepalpress.com".
Definition SAVE_INTERVAL : Z := 100.

(** ** Calls that leave the process

    A call into the network or into a library either returns, raises an
    [Exception] (which the callers below catch), or is cut short by a
    [KeyboardInterrupt] (which only the driver's [try] sees). *)

Inductive outcome (A : Type) : Type :=
  | Ok (a : A)
  | Exception
  | KeyboardInterrupt.
Arguments Ok {A} a.
Arguments Exception {A}.
Arguments KeyboardInterrupt {A}.

(** The result of a function that catches [Exception] itself: only a
    [KeyboardInterrupt] can escape it. *)
Inductive caught (A : Type) : Type :=
  | Returns (a : A)
  | Escapes.
Arguments Returns {A} a.
Arguments Escapes {A}.

(** ** The crawl state and the file system *)

Definition entry : Type := pystr * Z.

(** The four values the driver keeps, which are also the four keys of the
    checkpoint dictionary. *)
Record crawl_state : Type := CrawlState {
  queue : list entry;
  visited : gset pystr;
  page_count : Z;
  crawled_pages : Z
}.

(** What a state file holds: the dictionary [save_state] dumped, with the
    values the driver stores under its four keys; a file that cannot be read
    or bytes on which [pickle.load] raises; a pickled value that is false
    ([None], an empty dictionary, [0]); or a pickled value that is true but
    is not a dictionary with the four keys (a list, a dictionary of an older
    layout), so that a subscript at lines 206-209 raises [TypeError] or
    [KeyError]. *)
Inductive pickle : Type :=
  | Pickled (st : crawl_state)
  | Corrupt
  | FalseValue
  | Misshapen.

(** What [load_state] hands to the driver when [pickle.load] returns. *)
Inductive loaded : Type :=
  | StateDict (st : crawl_state)
  | OtherFalse
  | OtherTrue.

(** The files of the run: the text files by path, and the state files by
    path.  The state file is taken not to be one of the page files. *)
Record disk : Type := Disk {
  text_files : gmap pystr pystr;
  state_files : gmap pystr pickle
}.

(** [os.path.join(folder_path, file_name)] *)
Definition path_join (folder file : pystr) : pystr :=
  if starts_with [slash] file then file
  else match last folder with
       | None => file
       | Some c => if c =? slash then folder ++ file else folder ++ [slash] ++ file
       end.

(** How [with open(path, 'w') as f: f.write(...)] (or [pickle.dump]) ends:
    everything is written; [open] raises and the file is left as it was; or
    the file is opened, which truncates it, and the write raises after [n]
    characters. *)
Inductive write_result : Type :=
  | Written
  | Refused
  | Cut (n : nat).

(** What a write of [text] to the text file at [path] leaves. *)
Definition put_text (r : write_result) (path text : pystr) (fs : disk) : disk :=
  match r with
  | Written => Disk (<[path := text]> (text_files fs)) (state_files fs)
  | Refused => fs
  | Cut n => Disk (<[path := take n text]> (text_files fs)) (state_files fs)
  end.

(** What [pickle.dump] of [state] to the file at [path] leaves: a dump cut
    short cannot be loaded. *)
Definition put_state (r : write_result) (path : pystr) (state : crawl_state) (fs : disk) : disk :=
  match r with
  | Written => Disk (text_files fs) (<[path := Pickled state]> (state_files fs))
  | Refused => fs
  | Cut _ => Disk (text_files fs) (<[path := Corrupt]> (state_files fs))
  end.

(** [load_state]: [open] raises on a missing file and [pickle.load] on a
    corrupt one; both are caught and give [None]. Whatever [pickle.load]
    returns is returned as it is. *)
Definition load_state (state_file : pystr) (fs : disk) : option loaded :=
  match state_files fs !! state_file with
  | Some (Pickled state) => Some (StateDict state)
  | Some FalseValue => Some OtherFalse
  | Some Misshapen => Some OtherTrue
  | Some Corrupt => None
  | None => None
  end.

(** [os.path.exists(state_file)] *)
Definition path_exists (state_file : pystr) (fs : disk) : bool :=
  bool_decide (is_Some (state_files fs !! state_file)).

(** [f'page_{n}.txt'] *)
Definition page_file_name (n : Z) : pystr := py "page_" ++ str_of_int n ++ py ".txt".

(** [nepali_text and len(nepali_text.splitlines()) > 1] *)
Definition accepts (nepali_text : option pystr) : bool :=
  match nepali_text with
  | None => false
  | Some [] => false
  | Some text => (1 <? Z.of_nat (length (splitlines text)))
  end.

(** [queue.pop(0)] *)
Definition pop0 {A : Type} (q : list A) : option (A * list A) :=
  match q with
  | [] => None
  | x :: q' => Some (x, q')
  end.

(** ** The crawler over an abstract world *)

Section Crawler.

(** The state of everything outside the process: the web site, the
    language detector's random state, the signals delivered so far, and
    whatever makes the operating system refuse a write. *)
Context {W : Type}.

(** [session.get(url, timeout=10)], [raise_for_status()], the parse of the
    body and [find_all('p')]: the text of each paragraph. *)
Variable http_paragraphs : W -> pystr -> W * outcome (list pystr).
(** The same request followed by [find_all('a', href=True)]: the [href]
    attribute of each anchor. *)
Variable http_hrefs : W -> pystr -> W * outcome (list pystr).
(** [langdetect.detect] *)
Variable detect : W -> pystr -> W * outcome pystr.
(** [urllib.parse.urljoin] and [urlparse(...).netloc]; [None] when the
    library raises [ValueError]. *)
Variable urljoin : pystr -> pystr -> option pystr.
Variable netloc : pystr -> option pystr.
(** [re.search(pattern, url)] as a truth value. *)
Variable re_search : pystr -> pystr -> bool.
(** The order in which [for link in internal_links] walks a set: some
    arrangement of its elements. *)
Variable iter_order : gset pystr -> list pystr.
(** The global [shutdown_flag], which [handle_shutdown] sets when a signal
    arrives; the driver only reads it. *)
Variable shutdown_flag : W -> bool.
(** [os.makedirs(folder_path, exist_ok=True)]: [false] when it raises. *)
Variable makedirs : W -> pystr -> bool.
(** What becomes of opening the file at a path for writing and writing to
    it, given the files there are.  Neither call takes time in which the
    site or the signals change. *)
Variable write_file : W -> disk -> pystr -> write_result.

(** [save_text_to_file]: [os.makedirs] stands before the [try], so what it
    raises leaves the function ([None]); what [open] or [write] raise is
    caught and, [VERBOSE] being off, not even printed. *)
Definition save_text_to_file (w : W) (text folder_path file_name : pystr) (fs : disk)
  : option disk :=
  if makedirs w folder_path then
    let file_path := path_join folder_path file_name in
    Some (put_text (write_file w fs file_path) file_path text fs)
  else None.

(** [save_state]: whatever the write raises is caught and printed. *)
Definition save_state (w : W) (state_file : pystr) (state : crawl_state) (fs : disk)
  : disk :=
  put_state (write_file w fs state_file) state_file state fs.

(** [is_nepali]: the bare [except] swallows every exception. *)
Definition is_nepali (w : W) (text : pystr) : W * bool :=
  match detect w text with
  | (w', Ok lang) => (w', bool_decide (lang = py "ne"))
  | (w', Exception) => (w', false)
  | (w', KeyboardInterrupt) => (w', false)
  end.

(** [matches_pattern] *)
Definition matches_pattern (url : pystr) (patterns : list pystr) : bool :=
  existsb (fun pattern => re_search pattern url) patterns.

(** The body of the [for link in soup.find_all('a', href=True)] loop of
    [get_internal_links], over the set built so far; [None] when a library
    call raises. *)
Fixpoint collect_links (base_url : pystr) (hrefs : list pystr) (links : gset pystr)
  : option (gset pystr) :=
  match hrefs with
  | [] => Some links
  | href :: rest =>
      match strip href with
      | [] => collect_links base_url rest links
      | href' =>
          match urljoin base_url href' with
          | None => None
          | Some joined =>
              let full_url := normalize_url joined in
              match netloc full_url with
              | None => None
              | Some link_domain =>
                  if contains (py "web.archive.org") link_domain
                  then collect_links base_url rest links
                  else if bool_decide (link_domain = TARGET_DOMAIN)
                          && matches_pattern full_url URL_PATTERNS
                  then collect_links base_url rest ({[full_url]} ∪ links)
                  else collect_links base_url rest links
              end
          end
      end
  end.

(** [get_internal_links] *)
Definition get_internal_links (w : W) (current_url base_url : pystr)
  : W * caught (gset pystr) :=
  match http_hrefs w current_url with
  | (w', Ok hrefs) =>
      match collect_links base_url hrefs ∅ with
      | Some links => (w', Returns links)
      | None => (w', Returns ∅)
      end
  | (w', Exception) => (w', Returns ∅)
  | (w', KeyboardInterrupt) => (w', Escapes)
  end.

(** [collect_initial_links] *)
Definition collect_initial_links (w : W) (url : pystr) : W * caught (gset pystr) :=
  get_internal_links w url url.

(** The [for paragraph in paragraphs] loop of
    [extract_nepali_text_from_url]: the list [nepali_texts]. *)
Fixpoint nepali_texts (w : W) (paragraphs : list pystr) : W * list pystr :=
  match paragraphs with
  | [] => (w, [])
  | paragraph :: rest =>
      match strip paragraph with
      | [] => nepali_texts w rest
      | text =>
          let '(w1, ne) := is_nepali w text in
          if ne then
            let '(w2, texts) := nepali_texts w1 rest in
            (w2, clean_text text :: texts)
          else nepali_texts w1 rest
      end
  end.

(** [extract_nepali_text_from_url] *)
Definition extract_nepali_text_from_url (w : W) (current_url : pystr)
  : W * caught (option pystr) :=
  match http_paragraphs w current_url with
  | (w1, Ok paragraphs) =>
      let '(w2, texts) := nepali_texts w1 paragraphs in
      (w2, Returns (match texts with
                    | [] => None
                    | _ => Some (join (py " ") texts)
                    end))
  | (w1, Exception) => (w1, Returns None)
  | (w1, KeyboardInterrupt) => (w1, Escapes)
  end.

(** *** The driver *)

(** The local variables of [create_nepali_corpus] together with the world
    and the file system. *)
Record machine : Type := Machine {
  locals : crawl_state;
  world : W;
  files : disk
}.

(** How one pass through the loop body leaves it. *)
Inductive flow : Type :=
  | Next          (* falls through, or [continue] *)
  | Interrupt     (* a [KeyboardInterrupt] escapes the body *)
  | Crash.        (* what [os.makedirs] raised escapes the body *)

(** What one pass did with the entry it popped. *)
Inductive label : Type :=
  | Discarded (e : entry)
  | Processed (e : entry) (children : list entry).

Definition popped (l : label) : entry :=
  match l with Discarded e => e | Processed e _ => e end.

Definition enqueued (l : label) : list entry :=
  match l with Discarded _ => [] | Processed _ children => children end.

Definition processed_url (l : label) : list pystr :=
  match l with Discarded _ => [] | Processed e _ => [e.1] end.

(** The parameters of [create_nepali_corpus] that the loop reads. *)
Variables (url folder_path state_file : pystr) (max_depth : Z).

(** The [if nepali_text and ...] block: the page file, the counter and the
    periodic checkpoint; [None] when [save_text_to_file] raises, which is
    before [page_count += 1]. *)
Definition save_page (w : W) (nepali_text : option pystr) (st : crawl_state) (fs : disk)
  : option (crawl_state * disk) :=
  match nepali_text with
  | Some text =>
      if accepts nepali_text then
        let file_name := page_file_name (page_count st + 1) in
        match save_text_to_file w text folder_path file_name fs with
        | None => None
        | Some fs1 =>
            let st1 := CrawlState (queue st) (visited st) (page_count st + 1)
                                  (crawled_pages st) in
            if page_count st1 `mod` SAVE_INTERVAL =? 0
            then Some (st1, save_state w state_file st1 fs1)
            else Some (st1, fs1)
        end
      else Some (st, fs)
  | None => Some (st, fs)
  end.

(** The [for link in internal_links] loop. *)
Definition new_entries (links : gset pystr) (seen : gset pystr) (current_depth : Z)
  : list entry :=
  map (fun link => (link, current_depth + 1))
      (filter (fun link => link ∉ seen) (iter_order links)).

(** The loop body after [queue.pop(0)] returned [e] and left [m].  A
    [KeyboardInterrupt] is taken to arrive while one of the two requests is
    under way, which is where the body spends its time. *)
Definition loop_body (e : entry) (m : machine) : machine * flow * label :=
  let '(current_url, current_depth) := e in
  let st := locals m in
  if bool_decide (current_url ∈ visited st) || (max_depth <? current_depth)
  then (m, Next, Discarded e)
  else
    let st1 := CrawlState (queue st) ({[current_url]} ∪ visited st)
                          (page_count st) (crawled_pages st + 1) in
    match extract_nepali_text_from_url (world m) current_url with
    | (w1, Returns nepali_text) =>
        match save_page w1 nepali_text st1 (files m) with
        | Some (st2, fs2) =>
            if current_depth <? max_depth then
              match get_internal_links w1 current_url url with
              | (w2, Returns internal_links) =>
                  let children := new_entries internal_links (visited st2) current_depth in
                  (Machine (CrawlState (queue st2 ++ children) (visited st2)
                                       (page_count st2) (crawled_pages st2)) w2 fs2,
                   Next, Processed e children)
              | (w2, Escapes) => (Machine st2 w2 fs2, Interrupt, Processed e [])
              end
            else (Machine st2 w1 fs2, Next, Processed e [])
        | None => (Machine st1 w1 (files m), Crash, Processed e [])
        end
    | (w1, Escapes) => (Machine st1 w1 (files m), Interrupt, Processed e [])
    end.

(** The machine once [queue.pop(0)] has left [q] in [queue]. *)
Definition set_queue (q : list entry) (m : machine) : machine :=
  let st := locals m in
  Machine (CrawlState q (visited st) (page_count st) (crawled_pages st)) (world m) (files m).

(** [page_count < max_pages and queue and not shutdown_flag] *)
Definition loop_guard (max_pages : Z) (m : machine) : bool :=
  (page_count (locals m) <? max_pages)
  && negb (bool_decide (queue (locals m) = []))
  && negb (shutdown_flag (world m)).

(** How the [while] statement is left. *)
Inductive loop_exit : Type :=
  | GuardFalse
  | Interrupted
  | IndexError      (* [pop] on an empty list *)
  | Crashed.        (* an exception of [os.makedirs], which no [except] catches *)

(** The [while] loop with the list of what each pass did; [None] when
    [fuel] passes were not enough to leave it. *)
Fixpoint crawl_loop (max_pages : Z) (fuel : nat) (m : machine)
  : option (machine * loop_exit * list label) :=
  match fuel with
  | O => None
  | S fuel' =>
      if loop_guard max_pages m then
        match pop0 (queue (locals m)) with
        | None => Some (m, IndexError, [])
        | Some (e, q) =>
            match loop_body e (set_queue q m) with
            | (m1, Next, l) =>
                match crawl_loop max_pages fuel' m1 with
                | Some (m2, x, ls) => Some (m2, x, l :: ls)
                | None => None
                end
            | (m1, Interrupt, l) => Some (m1, Interrupted, [l])
            | (m1, Crash, l) => Some (m1, Crashed, [l])
            end
        end
      else Some (m, GuardFalse, [])
  end.


(** The state a crawl starts from when no checkpoint is used. *)
Definition fresh_state (w : W) : W * caught crawl_state :=
match collect_initial_links w url with
| (w1, Returns initial_links) =>
    (w1, Returns (CrawlState (map (fun link => (link, 1)) (iter_order initial_links)) ∅ 0 0))
| (w1, Escapes) => (w1, Escapes)
end.

(** The [if resume and os.path.exists(state_file)] block at the top of
    [create_nepali_corpus].  The dictionary [save_state] dumped has four
    keys and is therefore true; a false value, like [None], sends the driver
    to the [else] branch; on any other value the first subscript raises, and
    nothing around it catches that. *)
Definition initial_state (resume : bool) (w : W) (fs : disk) : W * outcome crawl_state :=
if resume && path_exists state_file fs then
  match load_state state_file fs with
  | Some (StateDict state) => (w, Ok state)
  | Some OtherTrue => (w, Exception)
  | Some OtherFalse | None =>
      match fresh_state w with
      | (w1, Returns st) => (w1, Ok st)
      | (w1, Escapes) => (w1, KeyboardInterrupt)
      end
  end
else
  match fresh_state w with
  | (w1, Returns st) => (w1, Ok st)
  | (w1, Escapes) => (w1, KeyboardInterrupt)
  end.

(** What a call of [create_nepali_corpus] amounts to: it is left before the
    [try] by an interrupt or by an exception, or it reaches the loop; then
    [x] says how the loop was left, and the [finally] clause has run.  After
    [Crashed] the exception goes on to the caller. *)
Inductive run : Type :=
  | Propagated (w : W) (fs : disk)
  | Aborted (w : W) (fs : disk)
  | Finished (m : machine) (x : loop_exit) (trace : list label).

(** The [finally] clause. *)
Definition final_checkpoint (m : machine) : machine :=
Machine (locals m) (world m) (save_state (world m) state_file (locals m) (files m)).

(** [create_nepali_corpus] *)
Definition create_nepali_corpus (max_pages : Z) (resume : bool) (fuel : nat) (w : W) (fs : disk)
  : option run :=
match initial_state resume w fs with
| (w0, Ok st0) =>
    match crawl_loop max_pages fuel (Machine st0 w0 fs) with
    | Some (m, x, trace) => Some (Finished (final_checkpoint m) x trace)
    | None => None
    end
| (w0, KeyboardInterrupt) => Some (Propagated w0 fs)
| (w0, Exception) => Some (Aborted w0 fs)
end.

(** *** Runs as a relation

    [run_of max_pages m trace m' x]: the loop started in [m] makes the
    passes of [trace] and is left in [m'] by [x]. *)
Inductive run_of (max_pages : Z) : machine -> list label -> machine -> loop_exit -> Prop :=
  | run_stop m :
      loop_guard max_pages m = false ->
      run_of max_pages m [] m GuardFalse
  | run_interrupt m e q m' l :
      loop_guard max_pages m = true ->
      queue (locals m) = e :: q ->
      loop_body e (set_queue q m) = (m', Interrupt, l) ->
      run_of max_pages m [l] m' Interrupted
  | run_crash m e q m' l :
      loop_guard max_pages m = true ->
      queue (locals m) = e :: q ->
      loop_body e (set_queue q m) = (m', Crash, l) ->
      run_of max_pages m [l] m' Crashed
  | run_next m e q m1 l trace m' x :
      loop_guard max_pages m = true ->
      queue (locals m) = e :: q ->
      loop_body e (set_queue q m) = (m1, Next, l) ->
      run_of max_pages m1 trace m' x ->
      run_of max_pages m (l :: trace) m' x.

(** The URLs a trace processed, the entries it popped and the entries it
    appended, each in order. *)
Definition processed (trace : list label) : list pystr := concat (map processed_url trace).
Definition dequeued (trace : list label) : list entry := map popped trace.
Definition appended (trace : list label) : list entry := concat (map enqueued trace).

(** The path of the [n]-th page file. *)
Definition page_path (n : Z) : pystr := path_join folder_path (page_file_name n).

(** The number of levels left below an entry: an entry at depth [d] can only
    add entries at depth [d + 1], and only while [d < max_depth]. *)
Definition level (e : entry) : nat := Z.to_nat (max_depth - snd e).

(** The loop started in [m] is left. *)
Definition terminates (max_pages : Z) (m : machine) : Prop :=
  exists trace m' x, run_of max_pages m trace m' x.

(** The depths a fresh crawl gives its entries. *)
Definition in_depth (e : entry) : Prop := 1 <= snd e <= max_depth.

(** The state in which a processed entry reaches the [if nepali_text ...]
    block: marked visited and counted as crawled. *)
Definition marked (e : entry) (m : machine) : crawl_state :=
  CrawlState (queue (locals m)) ({[fst e]} ∪ visited (locals m))
             (page_count (locals m)) (crawled_pages (locals m) + 1).

(** A URL of the target site that matches one of the patterns. *)
Definition in_scope (full_url : pystr) : Prop :=
  netloc full_url = Some TARGET_DOMAIN /\ matches_pattern full_url URL_PATTERNS = true.

(** [full_url] is what the loop of [get_internal_links] makes of the anchor
    [href]. *)
Definition link_of (base_url href full_url : pystr) : Prop :=
  strip href <> [] /\
  exists joined, urljoin base_url (strip href) = Some joined /\ full_url = normalize_url joined.

(** A library call raises on the anchor [href]. *)
Definition breaks (base_url href : pystr) : Prop :=
  strip href <> [] /\
  (urljoin base_url (strip href) = None \/
   exists joined, urljoin base_url (strip href) = Some joined /\
                  netloc (normalize_url joined) = None).

(** *** Facts about one pass *)

Lemma accepts_iff (t : option pystr) :
  accepts t = true <->
  exists text, t = Some text /\ text <> [] /\ (1 < length (splitlines text))%nat.
Proof.
  unfold accepts. split.
  - destruct t as [[|c text]|]; try discriminate.
    intros H. exists (c :: text). split; [done|]. split; [done|].
    apply Z.ltb_lt in H. lia.
  - intros (text & -> & Hne & Hlen). destruct text as [|c text]; [done|].
    apply Z.ltb_lt. lia.
Qed.

(** *** Writes *)

Lemma put_text_state_files (r : write_result) (path text : pystr) (fs : disk) :
  state_files (put_text r path text fs) = state_files fs.
Proof. by destruct r. Qed.

Lemma put_state_text_files (r : write_result) (path : pystr) (st : crawl_state) (fs : disk) :
  text_files (put_state r path st fs) = text_files fs.
Proof. by destruct r. Qed.

Lemma put_text_other (r : write_result) (path text p : pystr) (fs : disk) :
  p <> path -> text_files (put_text r path text fs) !! p = text_files fs !! p.
Proof. intros Hne. destruct r; cbn; rewrite ?lookup_insert_ne; done. Qed.

Lemma put_state_other (r : write_result) (path p : pystr) (st : crawl_state) (fs : disk) :
  p <> path -> state_files (put_state r path st fs) !! p = state_files fs !! p.
Proof. intros Hne. destruct r; cbn; rewrite ?lookup_insert_ne; done. Qed.

(** What [save_page] does, by whether the text is accepted, whether the
    folder can be made, and what the writes come to. *)
Lemma save_page_spec (w : W) (t : option pystr) (st : crawl_state) (fs : disk) :
  (accepts t = false /\ save_page w t st fs = Some (st, fs))
  \/
  (exists text, t = Some text /\ accepts t = true /\
     if makedirs w folder_path then
       let path := page_path (page_count st + 1) in
       let st1 := CrawlState (queue st) (visited st) (page_count st + 1) (crawled_pages st) in
       let fs1 := put_text (write_file w fs path) path text fs in
       save_page w t st fs =
         Some (st1, if (page_count st + 1) `mod` SAVE_INTERVAL =? 0
                    then put_state (write_file w fs1 state_file) state_file st1 fs1
                    else fs1)
     else save_page w t st fs = None).
Proof.
  unfold save_page, page_path. destruct t as [text|]; [|by left].
  destruct (accepts (Some text)) eqn:Hacc; [|by left].
  right. exists text. split; [done|]. split; [done|].
  unfold save_text_to_file, save_state.
  destruct (makedirs w folder_path); [|done]. cbn [page_count].
  by destruct (_ =? 0).
Qed.

(** The locals after [save_page] returned. *)
Lemma save_page_locals (w : W) (t : option pystr) (st st' : crawl_state) (fs fs' : disk) :
  save_page w t st fs = Some (st', fs') ->
  queue st' = queue st /\ visited st' = visited st /\ crawled_pages st' = crawled_pages st /\
  page_count st' = (if accepts t then page_count st + 1 else page_count st).
Proof.
  intros H. destruct (save_page_spec w t st fs) as [(-> & Hs)|(text & _ & -> & Hs)].
  - rewrite Hs in H. by injection H as <- <-.
  - destruct (makedirs w folder_path); rewrite Hs in H; [|done]. by injection H as <- <-.
Qed.

(** The text files after [save_page] returned. *)
Lemma save_page_text_files (w : W) (t : option pystr) (st st' : crawl_state) (fs fs' : disk) :
  save_page w t st fs = Some (st', fs') ->
  (accepts t = false /\ fs' = fs) \/
  (exists text, t = Some text /\ accepts t = true /\
     text_files fs' =
       text_files (put_text (write_file w fs (page_path (page_count st + 1)))
                            (page_path (page_count st + 1)) text fs)).
Proof.
  intros H. destruct (save_page_spec w t st fs) as [(Hacc & Hs)|(text & -> & Hacc & Hs)].
  - rewrite Hs in H. injection H as <- <-. by left.
  - destruct (makedirs w folder_path); rewrite Hs in H; [|done]. injection H as <- <-.
    right. exists text. split; [done|]. split; [done|].
    destruct (_ =? 0); [apply put_state_text_files|done].
Qed.

(** The state files after [save_page] returned. *)
Lemma save_page_state_files (w : W) (t : option pystr) (st st' : crawl_state) (fs fs' : disk) :
  save_page w t st fs = Some (st', fs') ->
  (accepts t && ((page_count st + 1) `mod` SAVE_INTERVAL =? 0) = false /\
   state_files fs' = state_files fs)
  \/
  (accepts t = true /\ (page_count st + 1) `mod` SAVE_INTERVAL = 0 /\
   exists fs1, state_files fs1 = state_files fs /\ text_files fs1 = text_files fs' /\
               fs' = put_state (write_file w fs1 state_file) state_file st' fs1).
Proof.
  intros H. destruct (save_page_spec w t st fs) as [(Hacc & Hs)|(text & -> & Hacc & Hs)].
  - rewrite Hs in H. injection H as <- <-. left. by rewrite Hacc.
  - destruct (makedirs w folder_path); rewrite Hs in H; [|done]. injection H as <- <-.
    rewrite Hacc. cbn [andb]. destruct (_ =? 0) eqn:Hmod.
    + right. split; [done|]. split; [by apply Z.eqb_eq|]. eexists. split; [|split; [|done]].
      * apply put_text_state_files.
      * by rewrite put_state_text_files.
    + left. split; [done|]. apply put_text_state_files.
Qed.

(** An entry that is already visited, or too deep, is dropped and nothing
    else happens. *)
Lemma loop_body_discard (e : entry) (m : machine) :
  fst e ∈ visited (locals m) \/ max_depth < snd e ->
  loop_body e m = (m, Next, Discarded e).
Proof.
  destruct e as [u d]. cbn [fst snd]. intros H. unfold loop_body.
  destruct (bool_decide (u ∈ visited (locals m)) || (max_depth <? d)) eqn:Hc; [done|].
  apply orb_false_iff in Hc as [Hv Hd].
  apply bool_decide_eq_false in Hv. apply Z.ltb_ge in Hd.
  destruct H; [done|lia].
Qed.

Ltac body_facts :=
  repeat match goal with |- _ /\ _ => split end; auto; try done.

(** Everything one pass can do. *)
Lemma loop_body_spec (e : entry) (m m' : machine) (f : flow) (l : label) :
  loop_body e m = (m', f, l) ->
  (l = Discarded e /\ m' = m /\ f = Next /\
   (fst e ∈ visited (locals m) \/ max_depth < snd e))
  \/
  (exists children, l = Processed e children /\
     (fst e ∉ visited (locals m)) /\ snd e <= max_depth /\
     visited (locals m') = {[fst e]} ∪ visited (locals m) /\
     crawled_pages (locals m') = crawled_pages (locals m) + 1 /\
     queue (locals m') = queue (locals m) ++ children /\
     (page_count (locals m') = page_count (locals m) \/
      page_count (locals m') = page_count (locals m) + 1) /\
     Forall (fun c => snd c = snd e + 1 /\ (fst c ∉ visited (locals m'))) children /\
     (children <> [] -> snd e < max_depth /\ f = Next)).
Proof.
  destruct e as [u d]. cbn [fst snd]. unfold loop_body.
  destruct (bool_decide (u ∈ visited (locals m)) || (max_depth <? d)) eqn:Hc.
  - intros [= <- <- <-]. left. repeat split; try done.
    apply orb_true_iff in Hc as [Hv|Hd].
    + left. by apply bool_decide_eq_true in Hv.
    + right. by apply Z.ltb_lt in Hd.
  - apply orb_false_iff in Hc as [Hv Hd].
    apply bool_decide_eq_false in Hv. apply Z.ltb_ge in Hd.
    intros H. right.
    destruct (extract_nepali_text_from_url (world m) u) as [w1 [t|]].
    2:{ injection H as <- <- <-. exists []. cbn. rewrite ?app_nil_r. body_facts. }
    destruct (save_page w1 t _ (files m)) as [[st2 fs2]|] eqn:Hsave.
    2:{ injection H as <- <- <-. exists []. cbn. rewrite ?app_nil_r. body_facts. }
    apply save_page_locals in Hsave as (Hq & Hvis & Hcr & Hacc). cbn in Hq, Hvis, Hcr, Hacc.
    assert (Hpc : page_count st2 = page_count (locals m)
                  \/ page_count st2 = page_count (locals m) + 1).
    { destruct (accepts t); [by right|by left]. }
    destruct (d <? max_depth) eqn:Hlt.
    2:{ injection H as <- <- <-. exists []. cbn. rewrite ?app_nil_r. body_facts. }
    apply Z.ltb_lt in Hlt.
    destruct (get_internal_links w1 u url) as [w2 [links|]].
    2:{ injection H as <- <- <-. exists []. cbn. rewrite ?app_nil_r. body_facts. }
    injection H as <- <- <-. eexists. cbn. split; [reflexivity|].
    rewrite Hq, Hvis, Hcr. body_facts.
    unfold new_entries. apply Forall_forall. intros c Hin.
    apply list_elem_of_fmap in Hin as (link & -> & Hin).
    apply list_elem_of_filter in Hin as [Hnot _]. cbn. split; [done|]. exact Hnot.
Qed.

(** One pass seen from the loop: [e] is popped from the head and the
    children go to the tail. *)
Lemma pass_spec (e : entry) (q : list entry) (m m' : machine) (f : flow) (l : label) :
  queue (locals m) = e :: q ->
  loop_body e (set_queue q m) = (m', f, l) ->
  popped l = e /\ queue (locals m') = q ++ enqueued l /\
  ((l = Discarded e /\ m' = set_queue q m /\ f = Next /\
    (fst e ∈ visited (locals m) \/ max_depth < snd e))
   \/
   (l = Processed e (enqueued l) /\
    (fst e ∉ visited (locals m)) /\ snd e <= max_depth /\
    visited (locals m') = {[fst e]} ∪ visited (locals m) /\
    crawled_pages (locals m') = crawled_pages (locals m) + 1 /\
    (page_count (locals m') = page_count (locals m) \/
     page_count (locals m') = page_count (locals m) + 1) /\
    Forall (fun c => snd c = snd e + 1) (enqueued l) /\
    (enqueued l <> [] -> snd e < max_depth))).
Proof.
  intros Hq Hbody. apply loop_body_spec in Hbody as [(-> & -> & -> & Hwhy)|Hproc].
  - cbn. rewrite app_nil_r. split; [done|]. split; [done|]. left. body_facts.
  - destruct Hproc as (children & -> & Hnv & Hd & Hvis & Hcr & Hqueue & Hpc & Hch & Hne).
    cbn in *. split; [done|]. split; [done|]. right. body_facts.
    + eapply Forall_impl; [exact Hch|]. by intros c [? _].
    + intros H. by apply Hne.
Qed.

(** *** The loop function and the run relation agree *)

Lemma loop_guard_iff (max_pages : Z) (m : machine) :
  loop_guard max_pages m = true <->
  page_count (locals m) < max_pages /\ queue (locals m) <> [] /\
  shutdown_flag (world m) = false.
Proof.
  unfold loop_guard. rewrite !andb_true_iff, !negb_true_iff, Z.ltb_lt, bool_decide_eq_false.
  tauto.
Qed.

Lemma crawl_loop_run (max_pages : Z) (fuel : nat) :
  forall m m' x trace,
    crawl_loop max_pages fuel m = Some (m', x, trace) -> run_of max_pages m trace m' x.
Proof.
  induction fuel as [|fuel IH]; intros m m' x trace; [discriminate|].
  cbn [crawl_loop]. destruct (loop_guard max_pages m) eqn:Hg.
  2:{ intros [= <- <- <-]. by constructor. }
  destruct (queue (locals m)) as [|e q] eqn:Hq.
  { apply loop_guard_iff in Hg as (_ & Hne & _). done. }
  cbn [pop0]. destruct (loop_body e (set_queue q m)) as [[m1 f] l] eqn:Hb.
  destruct f.
  - destruct (crawl_loop max_pages fuel m1) as [[[m2 x2] ls]|] eqn:Hrec; [|discriminate].
    intros [= <- <- <-]. eapply run_next; eauto.
  - intros [= <- <- <-]. eapply run_interrupt; eauto.
  - intros [= <- <- <-]. eapply run_crash; eauto.
Qed.

Lemma run_crawl_loop (max_pages : Z) (m m' : machine) (x : loop_exit) (trace : list label) :
  run_of max_pages m trace m' x ->
  forall fuel, (length trace < fuel)%nat ->
    crawl_loop max_pages fuel m = Some (m', x, trace).
Proof.
  induction 1 as [m Hg|m e q m' l Hg Hq Hb|m e q m' l Hg Hq Hb
                  |m e q m1 l trace m' x Hg Hq Hb Hrun IH];
    intros [|fuel] Hfuel; try (cbn in Hfuel; lia); cbn [crawl_loop]; rewrite Hg; [done|..];
    rewrite Hq; cbn [pop0]; rewrite Hb; [done|done|].
  rewrite IH; [done|]. cbn in Hfuel. lia.
Qed.

(** The loop never pops an empty list. *)
Lemma run_no_index_error (max_pages : Z) (m m' : machine) (x : loop_exit) (trace : list label) :
  run_of max_pages m trace m' x -> x <> IndexError.
Proof. induction 1; done. Qed.

(** A property every pass keeps is kept by the whole loop. *)
Lemma run_invariant (P : machine -> Prop) (max_pages : Z) :
  (forall m e q m' f l,
      P m -> loop_guard max_pages m = true -> queue (locals m) = e :: q ->
      loop_body e (set_queue q m) = (m', f, l) -> P m') ->
  forall m trace m' x, run_of max_pages m trace m' x -> P m -> P m'.
Proof.
  intros Hstep. induction 1; eauto.
Qed.

(** How the loop is left through its guard. *)
Lemma run_exit_guard (max_pages : Z) (m m' : machine) (x : loop_exit) (trace : list label) :
  run_of max_pages m trace m' x -> x = GuardFalse -> loop_guard max_pages m' = false.
Proof. induction 1; auto; discriminate. Qed.

(** *** Termination

    An entry at depth [d] can only add entries at depth [d + 1], and only
    while [d < max_depth]: the number of levels left below an entry
    decreases along every chain of links, so the loop is left after finitely
    many passes, whatever the site answers. *)

Lemma children_level (e : entry) (q : list entry) (m m' : machine) (f : flow) (l : label) :
  queue (locals m) = e :: q ->
  loop_body e (set_queue q m) = (m', f, l) ->
  Forall (fun c => (level c < level e)%nat) (enqueued l).
Proof.
  intros Hq Hb. destruct (pass_spec _ _ _ _ _ _ Hq Hb) as (_ & _ & [(-> & _)|Hp]).
  - constructor.
  - destruct Hp as (_ & _ & _ & _ & _ & _ & Hch & Hne).
    destruct (enqueued l) as [|c cs] eqn:Hen; [constructor|].
    assert (snd e < max_depth) by (by apply Hne).
    eapply Forall_impl; [exact Hch|]. intros c' Hc'. unfold level. cbn beta in *. lia.
Qed.

Lemma terminates_pass (max_pages : Z) (m : machine) (e : entry) (q : list entry)
    (m1 : machine) (f : flow) (l : label) :
  queue (locals m) = e :: q ->
  loop_body e (set_queue q m) = (m1, f, l) ->
  terminates max_pages m1 ->
  terminates max_pages m.
Proof.
  intros Hq Hb (trace & m' & x & Hrun).
  destruct (loop_guard max_pages m) eqn:Hg.
  - destruct f.
    + exists (l :: trace), m', x. eapply run_next; eauto.
    + exists [l], m1, Interrupted. eapply run_interrupt; eauto.
    + exists [l], m1, Crashed. eapply run_crash; eauto.
  - exists [], m, GuardFalse. by constructor.
Qed.

Lemma terminates_empty (max_pages : Z) (m : machine) :
  queue (locals m) = [] -> terminates max_pages m.
Proof.
  intros Hq. exists [], m, GuardFalse. constructor.
  destruct (loop_guard max_pages m) eqn:Hg; [|done].
  apply loop_guard_iff in Hg as (_ & Hne & _). done.
Qed.

Lemma split_at_first (P : entry -> Prop) `{!forall e, Decision (P e)} (q : list entry) (k : nat) :
  length (filter P q) = S k ->
  exists A e0 B, q = A ++ e0 :: B /\ Forall (fun e => ~ P e) A /\ P e0 /\
                 length (filter P B) = k.
Proof.
  induction q as [|e q IH]; [discriminate|].
  rewrite filter_cons. destruct (decide (P e)) as [Hp|Hn].
  - intros [= Hlen]. exists [], e, q. by repeat split.
  - intros Hlen. destruct (IH Hlen) as (A & e0 & B & -> & HA & He0 & HB).
    exists (e :: A), e0, B. repeat split; auto.
Qed.

Lemma filter_none (P : entry -> Prop) `{!forall e, Decision (P e)} (q : list entry) :
  Forall (fun e => ~ P e) q -> filter P q = [].
Proof.
  induction 1 as [|e q He _ IH]; [done|]. by rewrite filter_cons_False.
Qed.

Lemma terminates_below (max_pages : Z) (N : nat) :
  forall m, Forall (fun e => (level e < N)%nat) (queue (locals m)) ->
            terminates max_pages m.
Proof.
  induction N as [|N IHN]; intros m Hall.
  { apply terminates_empty. destruct (queue (locals m)) as [|e q]; [done|].
    apply Forall_cons in Hall as [H _]. lia. }
  remember (length (filter (fun e => level e = N) (queue (locals m)))) as k eqn:Hk.
  revert m Hall Hk. induction k as [|k IHk]; intros m Hall Hk.
  { apply IHN. symmetry in Hk. apply length_zero_iff_nil in Hk.
    apply Forall_forall. intros e He.
    assert (level e <> N).
    { intros Heq. assert (e ∈ filter (fun e => level e = N) (queue (locals m))) as Hin
        by (by apply list_elem_of_filter).
      rewrite Hk in Hin. by apply not_elem_of_nil in Hin. }
    rewrite Forall_forall in Hall. specialize (Hall e He). lia. }
  symmetry in Hk. apply split_at_first in Hk as (A & e0 & B & Hq & HA & He0 & HB).
  rewrite Hq in Hall. apply Forall_app in Hall as [HallA HallB].
  apply Forall_cons in HallB as [_ HallB].
  clear HA. revert m B Hq HallA HallB HB.
  induction A as [|a A IHA]; intros m B Hq HallA HallB HB.
  - cbn in Hq. destruct (loop_body e0 (set_queue B m)) as [[m1 f] l] eqn:Hb.
    eapply terminates_pass; [exact Hq|exact Hb|].
    pose proof (children_level _ _ _ _ _ _ Hq Hb) as Hch.
    destruct (pass_spec _ _ _ _ _ _ Hq Hb) as (_ & Hq1 & _).
    apply IHk.
    + rewrite Hq1. apply Forall_app. split; [done|].
      eapply Forall_impl; [exact Hch|]. cbn. intros c Hc. lia.
    + rewrite Hq1, filter_app, length_app, HB.
      rewrite filter_none; [cbn; lia|].
      eapply Forall_impl; [exact Hch|]. cbn. intros c Hc. lia.
  - cbn in Hq. apply Forall_cons in HallA as [Ha HallA].
    destruct (loop_body a (set_queue (A ++ e0 :: B) m)) as [[m1 f] l] eqn:Hb.
    eapply terminates_pass; [exact Hq|exact Hb|].
    pose proof (children_level _ _ _ _ _ _ Hq Hb) as Hch.
    destruct (pass_spec _ _ _ _ _ _ Hq Hb) as (_ & Hq1 & _).
    apply (IHA m1 (B ++ enqueued l)).
    + rewrite Hq1. by rewrite <- app_assoc.
    + done.
    + apply Forall_app. split; [done|].
      eapply Forall_impl; [exact Hch|]. cbn. intros c Hc. lia.
    + rewrite filter_app, length_app, HB.
      rewrite filter_none; [cbn; lia|].
      eapply Forall_impl; [exact Hch|]. cbn. intros c Hc. lia.
Qed.

(** The loop is always left. *)
Lemma crawl_loop_terminates (max_pages : Z) (m : machine) : terminates max_pages m.
Proof.
  apply (terminates_below max_pages (S (list_max (map level (queue (locals m)))))).
  apply Forall_forall. intros e He.
  assert (level e <= list_max (map level (queue (locals m))))%nat; [|lia].
  pose proof (proj1 (list_max_le (map level (queue (locals m))) _) (le_n _)) as Hmax.
  rewrite List.Forall_forall in Hmax. apply Hmax.
  apply in_map. by apply list_elem_of_In.
Qed.

(** *** Traces *)

Lemma processed_cons (l : label) (trace : list label) :
  processed (l :: trace) = processed_url l ++ processed trace.
Proof. reflexivity. Qed.

Lemma appended_cons (l : label) (trace : list label) :
  appended (l :: trace) = enqueued l ++ appended trace.
Proof. reflexivity. Qed.

(** What was popped, followed by what is left, is what was there followed
    by what was appended. *)
Lemma run_fifo (max_pages : Z) (m m' : machine) (x : loop_exit) (trace : list label) :
  run_of max_pages m trace m' x ->
  queue (locals m) ++ appended trace = dequeued trace ++ queue (locals m').
Proof.
  induction 1 as [m Hg|m e q m' l Hg Hq Hb|m e q m' l Hg Hq Hb
                  |m e q m1 l trace m' x Hg Hq Hb Hrun IH].
  - cbn. by rewrite app_nil_r.
  - destruct (pass_spec _ _ _ _ _ _ Hq Hb) as (Hp & Hq' & _).
    rewrite Hq, Hq'. cbn. rewrite Hp, !app_nil_r. done.
  - destruct (pass_spec _ _ _ _ _ _ Hq Hb) as (Hp & Hq' & _).
    rewrite Hq, Hq'. cbn. rewrite Hp, !app_nil_r. done.
  - destruct (pass_spec _ _ _ _ _ _ Hq Hb) as (Hp & Hq1 & _).
    rewrite Hq, appended_cons.
    change (dequeued (l :: trace)) with (popped l :: dequeued trace).
    rewrite Hp, <- !app_comm_cons, <- IH, Hq1. f_equal. by rewrite app_assoc.
Qed.

Lemma processed_sublist (trace : list label) :
  sublist (processed trace) (map fst (dequeued trace)).
Proof.
  induction trace as [|l trace IH]; [constructor|].
  rewrite processed_cons. destruct l as [e|e children]; cbn.
  - by apply sublist_cons.
  - by apply sublist_skip.
Qed.

(** The visited set grows by exactly the processed URLs, none of which was
    visited before and none of which occurs twice; [crawled_pages] counts
    them. *)
Lemma run_visited (max_pages : Z) (m m' : machine) (x : loop_exit) (trace : list label) :
  run_of max_pages m trace m' x ->
  NoDup (processed trace) /\
  (forall u, u ∈ processed trace -> u ∉ visited (locals m)) /\
  visited (locals m') = list_to_set (processed trace) ∪ visited (locals m) /\
  crawled_pages (locals m') = crawled_pages (locals m) + Z.of_nat (length (processed trace)).
Proof.
  assert (Hone : forall m e q m1 f l,
    queue (locals m) = e :: q -> loop_body e (set_queue q m) = (m1, f, l) ->
    NoDup (processed_url l) /\
    (forall u, u ∈ processed_url l -> u ∉ visited (locals m)) /\
    visited (locals m1) = list_to_set (processed_url l) ∪ visited (locals m) /\
    crawled_pages (locals m1)
      = crawled_pages (locals m) + Z.of_nat (length (processed_url l))).
  { intros m0 e q m1 f l Hq Hb.
    destruct (pass_spec _ _ _ _ _ _ Hq Hb) as (_ & _ & [(-> & -> & _)|Hp]).
    - cbn. repeat split; [constructor|set_solver|set_solver|lia].
    - destruct Hp as (-> & Hnv & _ & Hvis & Hcr & _). cbn.
      repeat split; [apply NoDup_singleton|set_solver|set_solver|lia]. }
  induction 1 as [m Hg|m e q m' l Hg Hq Hb|m e q m' l Hg Hq Hb
                  |m e q m1 l trace m' x Hg Hq Hb Hrun IH].
  - cbn. repeat split; [constructor|set_solver|set_solver|lia].
  - destruct (Hone _ _ _ _ _ _ Hq Hb) as (Hnd & Hfresh & Hvis & Hcr).
    unfold processed. cbn. rewrite app_nil_r. done.
  - destruct (Hone _ _ _ _ _ _ Hq Hb) as (Hnd & Hfresh & Hvis & Hcr).
    unfold processed. cbn. rewrite app_nil_r. done.
  - destruct (Hone _ _ _ _ _ _ Hq Hb) as (Hnd & Hfresh & Hvis & Hcr).
    destruct IH as (IHnd & IHfresh & IHvis & IHcr).
    rewrite processed_cons. repeat split.
    + apply NoDup_app. repeat split; [done| |done].
      intros u Hu Hu'. apply IHfresh in Hu'. set_solver.
    + intros u Hu. apply elem_of_app in Hu as [Hu|Hu]; [by apply Hfresh|].
      apply IHfresh in Hu. set_solver.
    + rewrite IHvis, Hvis, list_to_set_app_L. set_solver.
    + rewrite IHcr, Hcr, length_app. lia.
Qed.

(** *** The budget *)

Lemma run_budget (max_pages : Z) (m m' : machine) (x : loop_exit) (trace : list label) :
  run_of max_pages m trace m' x ->
  page_count (locals m) <= max_pages ->
  page_count (locals m') <= max_pages.
Proof.
  apply (run_invariant (fun m => page_count (locals m) <= max_pages)).
  intros m0 e q m1 f l Hle Hg Hq Hb.
  apply loop_guard_iff in Hg as (Hlt & _).
  destruct (pass_spec _ _ _ _ _ _ Hq Hb) as (_ & _ & [(_ & -> & _)|Hp]); [done|].
  destruct Hp as (_ & _ & _ & _ & _ & Hpc & _). lia.
Qed.

(** Left through the guard with work to do and no stop requested, the
    budget is used up. *)
Lemma run_exit_at_budget (max_pages : Z) (m m' : machine) (trace : list label) :
  run_of max_pages m trace m' GuardFalse ->
  page_count (locals m') <= max_pages ->
  queue (locals m') <> [] ->
  shutdown_flag (world m') = false ->
  page_count (locals m') = max_pages.
Proof.
  intros Hrun Hle Hq Hflag.
  pose proof (run_exit_guard _ _ _ _ _ Hrun eq_refl) as Hg.
  destruct (decide (page_count (locals m') = max_pages)) as [|Hne]; [done|].
  assert (loop_guard max_pages m' = true); [|congruence].
  apply loop_guard_iff. split; [lia|]. by split.
Qed.

(** A run under a larger budget that saves at least [max_pages] pages has
    the run under [max_pages] as a prefix, and that run ends with exactly
    [max_pages] saved pages. *)
Lemma run_smaller_budget (max_pages bigger : Z) (m m' : machine) (x : loop_exit)
    (trace : list label) :
  run_of bigger m trace m' x ->
  max_pages <= bigger ->
  page_count (locals m) <= max_pages ->
  max_pages <= page_count (locals m') ->
  exists m'' x'' trace'',
    run_of max_pages m trace'' m'' x'' /\ page_count (locals m'') = max_pages /\
    trace'' `prefix_of` trace.
Proof.
  intros Hrun Hbig. induction Hrun as [m Hg|m e q m' l Hg Hq Hb|m e q m' l Hg Hq Hb
                     |m e q m1 l trace m' x Hg Hq Hb Hrun IH];
    intros Hle Hge.
  - exists m, GuardFalse, []. repeat split; [|lia|done].
    constructor. destruct (loop_guard max_pages m) eqn:Hg'; [|done].
    apply loop_guard_iff in Hg' as (? & _). lia.
  - destruct (decide (page_count (locals m) = max_pages)) as [Heq|Hne].
    + exists m, GuardFalse, []. repeat split; [|done|apply prefix_nil].
      constructor. destruct (loop_guard max_pages m) eqn:Hg'; [|done].
      apply loop_guard_iff in Hg' as (? & _). lia.
    + exists m', Interrupted, [l].
      assert (loop_guard max_pages m = true) as Hg'.
      { apply loop_guard_iff in Hg as (_ & ? & ?). apply loop_guard_iff. repeat split; auto. lia. }
      repeat split; [eapply run_interrupt; eauto| |done].
      destruct (pass_spec _ _ _ _ _ _ Hq Hb) as (_ & _ & [(_ & -> & _)|Hp]); [cbn in *; lia|].
      destruct Hp as (_ & _ & _ & _ & _ & Hpc & _). lia.
  - destruct (decide (page_count (locals m) = max_pages)) as [Heq|Hne].
    + exists m, GuardFalse, []. repeat split; [|done|apply prefix_nil].
      constructor. destruct (loop_guard max_pages m) eqn:Hg'; [|done].
      apply loop_guard_iff in Hg' as (? & _). lia.
    + exists m', Crashed, [l].
      assert (loop_guard max_pages m = true) as Hg'.
      { apply loop_guard_iff in Hg as (_ & ? & ?). apply loop_guard_iff. repeat split; auto. lia. }
      repeat split; [eapply run_crash; eauto| |done].
      destruct (pass_spec _ _ _ _ _ _ Hq Hb) as (_ & _ & [(_ & -> & _)|Hp]); [cbn in *; lia|].
      destruct Hp as (_ & _ & _ & _ & _ & Hpc & _). lia.
  - destruct (decide (page_count (locals m) = max_pages)) as [Heq|Hne].
    + exists m, GuardFalse, []. repeat split; [|done|apply prefix_nil].
      constructor. destruct (loop_guard max_pages m) eqn:Hg'; [|done].
      apply loop_guard_iff in Hg' as (? & _). lia.
    + assert (loop_guard max_pages m = true) as Hg'.
      { apply loop_guard_iff in Hg as (_ & ? & ?). apply loop_guard_iff. repeat split; auto. lia. }
      destruct IH as (m'' & x'' & trace'' & Hrun'' & Hpc'' & Hpre); [|done|].
      { destruct (pass_spec _ _ _ _ _ _ Hq Hb) as (_ & _ & [(_ & -> & _)|Hp]); [cbn in *; lia|].
        destruct Hp as (_ & _ & _ & _ & _ & Hpc & _). lia. }
      exists m'', x'', (l :: trace''). repeat split; [eapply run_next; eauto|done|].
      by apply prefix_cons.
Qed.

(** *** The pass of an entry that is processed *)

Lemma loop_body_process (e : entry) (m : machine) :
  fst e ∉ visited (locals m) -> snd e <= max_depth ->
  loop_body e m =
  let st1 := CrawlState (queue (locals m)) ({[fst e]} ∪ visited (locals m))
                        (page_count (locals m)) (crawled_pages (locals m) + 1) in
  match extract_nepali_text_from_url (world m) (fst e) with
  | (w1, Returns nepali_text) =>
      match save_page w1 nepali_text st1 (files m) with
      | Some (st2, fs2) =>
          if snd e <? max_depth then
            match get_internal_links w1 (fst e) url with
            | (w2, Returns internal_links) =>
                let children := new_entries internal_links (visited st2) (snd e) in
                (Machine (CrawlState (queue st2 ++ children) (visited st2)
                                     (page_count st2) (crawled_pages st2)) w2 fs2,
                 Next, Processed e children)
            | (w2, Escapes) => (Machine st2 w2 fs2, Interrupt, Processed e [])
            end
          else (Machine st2 w1 fs2, Next, Processed e [])
      | None => (Machine st1 w1 (files m), Crash, Processed e [])
      end
  | (w1, Escapes) => (Machine st1 w1 (files m), Interrupt, Processed e [])
  end.
Proof.
  destruct e as [u d]. cbn [fst snd]. intros Hnv Hd. unfold loop_body.
  rewrite (bool_decide_eq_false_2 _ Hnv). rewrite (proj2 (Z.ltb_ge _ _) Hd). reflexivity.
Qed.

(** Once the text is extracted, the files and the counter are those
    [save_page] leaves; when it raises, they are those of before. *)
Lemma loop_body_saves (e : entry) (m m' : machine) (f : flow) (l : label)
    (w1 : W) (t : option pystr) :
  fst e ∉ visited (locals m) -> snd e <= max_depth ->
  extract_nepali_text_from_url (world m) (fst e) = (w1, Returns t) ->
  loop_body e m = (m', f, l) ->
  (exists st2,
      save_page w1 t (marked e m) (files m) = Some (st2, files m') /\
      page_count (locals m') = page_count st2 /\ f <> Crash)
  \/
  (save_page w1 t (marked e m) (files m) = None /\
   m' = Machine (marked e m) w1 (files m) /\ f = Crash /\ l = Processed e []).
Proof.
  intros Hnv Hd Hex. rewrite (loop_body_process _ _ Hnv Hd). cbn zeta. rewrite Hex.
  fold (marked e m).
  destruct (save_page w1 t _ (files m)) as [[st2 fs2]|].
  2:{ intros [= <- <- <-]. by right. }
  destruct (snd e <? max_depth).
  - destruct (get_internal_links w1 (fst e) url) as [w2 [links|]];
      intros [= <- <- <-]; left; by exists st2.
  - intros [= <- <- <-]. left. by exists st2.
Qed.

(** A pass leaves the files alone unless it extracted a text and
    [save_page] returned. *)
Lemma loop_body_files (e : entry) (m m' : machine) (f : flow) (l : label) :
  loop_body e m = (m', f, l) ->
  files m' = files m \/
  exists w1 t st2, extract_nepali_text_from_url (world m) (fst e) = (w1, Returns t) /\
                   save_page w1 t (marked e m) (files m) = Some (st2, files m').
Proof.
  intros Hb. destruct (decide (fst e ∈ visited (locals m) \/ max_depth < snd e)) as [Hdis|Hproc].
  - rewrite (loop_body_discard _ _ Hdis) in Hb. injection Hb as <- _ _. by left.
  - assert (fst e ∉ visited (locals m)) as Hnv by tauto.
    assert (snd e <= max_depth) as Hd by lia.
    destruct (extract_nepali_text_from_url (world m) (fst e)) as [w1 [t|]] eqn:Hex.
    + destruct (loop_body_saves _ _ _ _ _ _ _ Hnv Hd Hex Hb)
        as [(st2 & Hsave & _)|(_ & -> & _)]; [|by left].
      right. eauto 6.
    + rewrite (loop_body_process _ _ Hnv Hd) in Hb. cbn zeta in Hb. rewrite Hex in Hb.
      injection Hb as <- _ _. by left.
Qed.

(** *** The alphabet of the extracted text *)

Lemma clean_text_allowed (s : pystr) : Forall allowed_char (clean_text s).
Proof.
  apply Forall_forall. intros c Hc. apply list_elem_of_filter in Hc as [Hc _].
  unfold retained, is_devanagari in Hc. unfold allowed_char.
  rewrite !orb_true_iff, andb_true_iff, !Z.eqb_eq, !Z.leb_le in Hc. tauto.
Qed.

Lemma join_allowed (parts : list pystr) :
  Forall (Forall allowed_char) parts -> Forall allowed_char (join (py " ") parts).
Proof.
  induction 1 as [|p rest Hp Hrest IH]; [constructor|].
  destruct rest as [|p' rest]; [done|].
  change (join (py " ") (p :: p' :: rest)) with (p ++ py " " ++ join (py " ") (p' :: rest)).
  rewrite !Forall_app. split; [done|]. split; [|done].
  apply Forall_singleton. unfold allowed_char. right. left. reflexivity.
Qed.

Lemma nepali_texts_allowed (paragraphs : list pystr) :
  forall w w' texts, nepali_texts w paragraphs = (w', texts) ->
                     Forall (Forall allowed_char) texts.
Proof.
  induction paragraphs as [|p rest IH]; intros w w' texts; cbn [nepali_texts].
  { intros [= <- <-]. constructor. }
  destruct (strip p) as [|c text]; [apply IH|].
  destruct (is_nepali w (c :: text)) as [w1 [|]]; [|apply IH].
  destruct (nepali_texts w1 rest) as [w2 texts'] eqn:Hrest.
  intros [= <- <-]. constructor; [apply clean_text_allowed|]. eapply IH, Hrest.
Qed.

Lemma extract_allowed (w w' : W) (u text : pystr) :
  extract_nepali_text_from_url w u = (w', Returns (Some text)) -> Forall allowed_char text.
Proof.
  unfold extract_nepali_text_from_url.
  destruct (http_paragraphs w u) as [w1 [paragraphs| |]]; try discriminate.
  destruct (nepali_texts w1 paragraphs) as [w2 texts] eqn:Ht.
  destruct texts as [|t texts]; [discriminate|].
  intros [= <- <-]. apply (join_allowed (t :: texts)). eapply nepali_texts_allowed, Ht.
Qed.

(** Every text file a pass leaves is one it found or one that holds only
    allowed characters. *)
Lemma loop_body_texts (e : entry) (m m' : machine) (f : flow) (l : label) :
  loop_body e m = (m', f, l) ->
  forall p text, text_files (files m') !! p = Some text ->
                 text_files (files m) !! p = Some text \/ Forall allowed_char text.
Proof.
  intros Hb p text Hp.
  destruct (loop_body_files _ _ _ _ _ Hb) as [Heq|(w1 & t & st2 & Hex & Hsave)].
  { rewrite Heq in Hp. by left. }
  apply save_page_text_files in Hsave as [(_ & Hfs)|(text' & -> & _ & Hfiles)].
  { rewrite Hfs in Hp. by left. }
  rewrite Hfiles in Hp. pose proof (extract_allowed _ _ _ _ Hex) as Hall.
  destruct (decide (p = page_path (page_count (marked e m) + 1))) as [->|Hne].
  - destruct (write_file _ _ _); cbn in Hp.
    + rewrite lookup_insert_eq in Hp. injection Hp as <-. by right.
    + by left.
    + rewrite lookup_insert_eq in Hp. injection Hp as <-. right. by apply Forall_take.
  - rewrite put_text_other in Hp by done. by left.
Qed.

(** *** The names of the page files *)

Lemma py_inj (s s' : string) : py s = py s' -> s = s'.
Proof.
  unfold py. intros H.
  rewrite <- (string_of_list_ascii_of_string s), <- (string_of_list_ascii_of_string s').
  f_equal. revert H. generalize (list_ascii_of_string s) (list_ascii_of_string s').
  induction l as [|a l IH]; intros [|a' l']; cbn; try discriminate; [done|].
  intros [= Ha Hl]. f_equal; [|by apply IH].
  apply N2Z.inj in Ha. rewrite <- (ascii_N_embedding a), <- (ascii_N_embedding a'). by rewrite Ha.
Qed.

Lemma str_of_int_inj (n n' : Z) : str_of_int n = str_of_int n' -> n = n'.
Proof.
  unfold str_of_int. intros H. apply py_inj in H.
  apply (f_equal NilEmpty.int_of_string) in H. rewrite !NilEmpty.isi in H.
  injection H as H. apply (f_equal Z.of_int) in H. by rewrite !DecimalZ.of_to in H.
Qed.

Lemma page_file_name_inj (n n' : Z) : page_file_name n = page_file_name n' -> n = n'.
Proof.
  unfold page_file_name. intros H. apply app_inv_head in H. apply app_inv_tail in H.
  by apply str_of_int_inj.
Qed.

Lemma page_path_inj (folder : pystr) (n n' : Z) :
  path_join folder (page_file_name n) = path_join folder (page_file_name n') -> n = n'.
Proof.
  unfold path_join.
  assert (Hs : forall k, starts_with [slash] (page_file_name k) = false) by reflexivity.
  rewrite !Hs. destruct (last folder) as [c|]; [destruct (c =? slash)|]; intros H.
  - apply app_inv_head in H. by apply page_file_name_inj.
  - apply app_inv_head in H. apply app_inv_head in H. by apply page_file_name_inj.
  - by apply page_file_name_inj.
Qed.

(** *** Depths and counters along a run *)

Lemma run_depth (max_pages : Z) (m m' : machine) (x : loop_exit) (trace : list label) :
  run_of max_pages m trace m' x ->
  Forall in_depth (queue (locals m)) ->
  Forall in_depth (queue (locals m')) /\ Forall in_depth (appended trace).
Proof.
  assert (Hone : forall m e q m1 f l,
    queue (locals m) = e :: q -> loop_body e (set_queue q m) = (m1, f, l) ->
    Forall in_depth (queue (locals m)) ->
    Forall in_depth (queue (locals m1)) /\ Forall in_depth (enqueued l)).
  { intros m0 e q m1 f l Hq Hb Hall. rewrite Hq in Hall. apply Forall_cons in Hall as [He Hall].
    destruct (pass_spec _ _ _ _ _ _ Hq Hb) as (_ & Hq1 & [(-> & _)|Hp]).
    - rewrite Hq1. cbn. rewrite app_nil_r. split; [done|constructor].
    - destruct Hp as (_ & _ & _ & _ & _ & _ & Hch & Hne).
      assert (Forall in_depth (enqueued l)) as Hen.
      { destruct (enqueued l) as [|c cs] eqn:Hen; [constructor|].
        assert (snd e < max_depth) by (by apply Hne).
        eapply Forall_impl; [exact Hch|]. intros c' Hc'. unfold in_depth in *.
        cbn beta in *. lia. }
      rewrite Hq1. split; [|done]. apply Forall_app. by split. }
  induction 1 as [m Hg|m e q m' l Hg Hq Hb|m e q m' l Hg Hq Hb
                  |m e q m1 l trace m' x Hg Hq Hb Hrun IH]; intros Hall.
  - split; [done|constructor].
  - destruct (Hone _ _ _ _ _ _ Hq Hb Hall) as [H1 H2]. split; [done|].
    unfold appended. cbn. by rewrite app_nil_r.
  - destruct (Hone _ _ _ _ _ _ Hq Hb Hall) as [H1 H2]. split; [done|].
    unfold appended. cbn. by rewrite app_nil_r.
  - destruct (Hone _ _ _ _ _ _ Hq Hb Hall) as [H1 H2].
    destruct (IH H1) as [H3 H4]. split; [done|].
    rewrite appended_cons. apply Forall_app. by split.
Qed.

Lemma pass_counters (e : entry) (q : list entry) (m m' : machine) (f : flow) (l : label) :
  queue (locals m) = e :: q ->
  loop_body e (set_queue q m) = (m', f, l) ->
  page_count (locals m) <= crawled_pages (locals m) ->
  page_count (locals m') <= crawled_pages (locals m').
Proof.
  intros Hq Hb Hle.
  destruct (pass_spec _ _ _ _ _ _ Hq Hb) as (_ & _ & [(_ & -> & _)|Hp]); [done|].
  destruct Hp as (_ & _ & _ & _ & Hcr & Hpc & _). lia.
Qed.

Lemma run_counters (max_pages : Z) (m m' : machine) (x : loop_exit) (trace : list label) :
  run_of max_pages m trace m' x ->
  page_count (locals m) <= crawled_pages (locals m) ->
  page_count (locals m') <= crawled_pages (locals m').
Proof.
  apply (run_invariant (fun m => page_count (locals m) <= crawled_pages (locals m))).
  intros m0 e q m1 f l Hle _ Hq Hb. eapply pass_counters; eauto.
Qed.

Lemma run_texts (max_pages : Z) (m m' : machine) (x : loop_exit) (trace : list label) :
  run_of max_pages m trace m' x ->
  forall p text, text_files (files m') !! p = Some text ->
                 text_files (files m) !! p = Some text \/ Forall allowed_char text.
Proof.
  induction 1 as [m Hg|m e q m' l Hg Hq Hb|m e q m' l Hg Hq Hb
                  |m e q m1 l trace m' x Hg Hq Hb Hrun IH];
    intros p text Hp.
  - by left.
  - apply (loop_body_texts _ _ _ _ _ Hb) in Hp. exact Hp.
  - apply (loop_body_texts _ _ _ _ _ Hb) in Hp. exact Hp.
  - apply IH in Hp as [Hp|Hp]; [|by right].
    apply (loop_body_texts _ _ _ _ _ Hb) in Hp. exact Hp.
Qed.

(** *** The whole call *)

Lemma create_finished (max_pages : Z) (resume : bool) (fuel : nat) (w : W) (fs : disk)
    (m : machine) (x : loop_exit) (trace : list label) :
  create_nepali_corpus max_pages resume fuel w fs = Some (Finished m x trace) ->
  exists st0 w0 m0,
    initial_state resume w fs = (w0, Ok st0) /\
    run_of max_pages (Machine st0 w0 fs) trace m0 x /\
    m = final_checkpoint m0.
Proof.
  unfold create_nepali_corpus.
  destruct (initial_state resume w fs) as [w0 [st0| |]]; [|discriminate..].
  destruct (crawl_loop max_pages fuel _) as [[[m0 x0] tr]|] eqn:Hloop; [|discriminate].
  intros [= <- <- <-]. exists st0, w0, m0. split; [done|]. split; [|done].
  by eapply crawl_loop_run.
Qed.

Lemma create_terminates (max_pages : Z) (resume : bool) (w : W) (fs : disk) :
  exists fuel r, create_nepali_corpus max_pages resume fuel w fs = Some r.
Proof.
  unfold create_nepali_corpus.
  destruct (initial_state resume w fs) as [w0 [st0| |]]; [|by exists O; eauto..].
  destruct (crawl_loop_terminates max_pages (Machine st0 w0 fs)) as (trace & m' & x & Hrun).
  exists (S (length trace)). rewrite (run_crawl_loop _ _ _ _ _ Hrun) by lia. eauto.
Qed.

Lemma fresh_state_spec (w w1 : W) (st : crawl_state) :
  fresh_state w = (w1, Returns st) ->
  exists links, collect_initial_links w url = (w1, Returns links) /\
                st = CrawlState (map (fun link => (link, 1)) (iter_order links)) ∅ 0 0.
Proof.
  unfold fresh_state. destruct (collect_initial_links w url) as [w' [links|]]; [|discriminate].
  intros [= <- <-]. by exists links.
Qed.

(** *** Scheme repair *)

Lemma starts_with_app (p s : pystr) : starts_with p s = true -> exists t, s = p ++ t.
Proof.
  revert s. induction p as [|a p IH]; intros s; [by exists s|].
  destruct s as [|b s]; [discriminate|]. cbn. intros H.
  apply andb_true_iff in H as [Hab Hp]. apply Z.eqb_eq in Hab as ->.
  destruct (IH _ Hp) as [t ->]. by exists t.
Qed.

Lemma normalize_url_single_slash (scheme : pystr) (c : Z) (rest : pystr) :
  scheme = py "http:" \/ scheme = py "https:" ->
  c <> slash ->
  normalize_url (scheme ++ slash :: c :: rest) = scheme ++ slash :: slash :: c :: rest.
Proof.
  intros [-> | ->] Hc; unfold normalize_url, malformed_scheme; cbn;
    rewrite (proj2 (Z.eqb_neq c slash) Hc); reflexivity.
Qed.

Lemma normalize_url_double_slash (scheme : pystr) (rest : pystr) :
  scheme = py "http:" \/ scheme = py "https:" ->
  normalize_url (scheme ++ slash :: slash :: rest) = scheme ++ slash :: slash :: rest.
Proof. intros [-> | ->]; reflexivity. Qed.

Lemma malformed_scheme_inv (u : pystr) (n : nat) :
  malformed_scheme u = Some n ->
  exists scheme c rest,
    (scheme = py "http:" \/ scheme = py "https:") /\ c <> slash /\
    u = scheme ++ slash :: c :: rest.
Proof.
  unfold malformed_scheme.
  destruct (starts_with (py "https:") u) eqn:Hs.
  - apply starts_with_app in Hs as [t ->]. cbn.
    destruct t as [|s [|c rest]]; cbn; try discriminate.
    destruct ((s =? slash) && negb (c =? slash)) eqn:Hc; [|discriminate].
    apply andb_true_iff in Hc as [Hs Hc]. apply Z.eqb_eq in Hs as ->.
    apply negb_true_iff, Z.eqb_neq in Hc. intros _.
    exists (py "https:"), c, rest. auto.
  - cbn [andb]. destruct (starts_with (py "http:") u) eqn:Hh; [|discriminate].
    apply starts_with_app in Hh as [t ->]. cbn.
    destruct t as [|s [|c rest]]; cbn; try discriminate.
    destruct ((s =? slash) && negb (c =? slash)) eqn:Hc; [|discriminate].
    apply andb_true_iff in Hc as [Hs' Hc]. apply Z.eqb_eq in Hs' as ->.
    apply negb_true_iff, Z.eqb_neq in Hc. intros _.
    exists (py "http:"), c, rest. auto.
Qed.

Lemma normalize_url_idempotent (u : pystr) : normalize_url (normalize_url u) = normalize_url u.
Proof.
  destruct (malformed_scheme u) as [n|] eqn:Hm.
  - destruct (malformed_scheme_inv _ _ Hm) as (scheme & c & rest & Hs & Hc & ->).
    rewrite (normalize_url_single_slash _ _ _ Hs Hc).
    apply (normalize_url_double_slash scheme (c :: rest) Hs).
  - unfold normalize_url. by rewrite Hm, Hm.
Qed.

(** *** The page files of a run *)

(** A pass leaves the text files and [page_count] alone, or adds one to
    [page_count] and changes no text file but the next page file. *)
Lemma pass_files (e : entry) (m m' : machine) (f : flow) (l : label) :
  loop_body e m = (m', f, l) ->
  (text_files (files m') = text_files (files m) /\
   page_count (locals m') = page_count (locals m))
  \/
  (exists (res : write_result) (text : pystr),
      text_files (files m')
        = text_files (put_text res (page_path (page_count (locals m) + 1)) text (files m)) /\
      page_count (locals m') = page_count (locals m) + 1).
Proof.
  intros Hb. destruct (decide (fst e ∈ visited (locals m) \/ max_depth < snd e)) as [Hdis|Hproc].
  { rewrite (loop_body_discard _ _ Hdis) in Hb. injection Hb as <- _ _. by left. }
  assert (fst e ∉ visited (locals m)) as Hnv by tauto.
  assert (snd e <= max_depth) as Hd by lia.
  destruct (extract_nepali_text_from_url (world m) (fst e)) as [w1 [t|]] eqn:Hex.
  - destruct (loop_body_saves _ _ _ _ _ _ _ Hnv Hd Hex Hb)
      as [(st2 & Hsave & Hpc & _)|(_ & -> & _)]; [|by left].
    pose proof (save_page_locals _ _ _ _ _ _ Hsave) as (_ & _ & _ & Hpc2).
    apply save_page_text_files in Hsave as [(Hacc & Hfs)|(text & -> & Hacc & Hfiles)];
      rewrite Hacc in Hpc2; cbn in Hpc2.
    { left. by rewrite Hfs, Hpc, Hpc2. }
    right. eexists _, text. rewrite Hfiles, Hpc, Hpc2. done.
  - rewrite (loop_body_process _ _ Hnv Hd) in Hb. cbn zeta in Hb. rewrite Hex in Hb.
    injection Hb as <- _ _. by left.
Qed.

(** Over a run [page_count] never decreases and no text file changes other
    than the page files of the counts passed. *)
Lemma run_files (max_pages : Z) (m m' : machine) (x : loop_exit) (trace : list label) :
  run_of max_pages m trace m' x ->
  page_count (locals m) <= page_count (locals m') /\
  (forall p, (forall k, page_count (locals m) < k <= page_count (locals m') -> p <> page_path k) ->
             text_files (files m') !! p = text_files (files m) !! p).
Proof.
  assert (Hone : forall m e q m1 f l,
    queue (locals m) = e :: q -> loop_body e (set_queue q m) = (m1, f, l) ->
    page_count (locals m) <= page_count (locals m1) /\
    (forall p, (forall k, page_count (locals m) < k <= page_count (locals m1) -> p <> page_path k) ->
               text_files (files m1) !! p = text_files (files m) !! p)).
  { intros m0 e q m1 f l Hq Hb.
    destruct (pass_files _ _ _ _ _ Hb) as [[Hfiles Hpc]|(res & text & Hfiles & Hpc)];
      cbn in Hfiles, Hpc; rewrite Hfiles, Hpc.
    - split; [lia|done].
    - split; [lia|]. intros p Hp. apply put_text_other.
      apply (Hp (page_count (locals m0) + 1)). lia. }
  induction 1 as [m Hg|m e q m' l Hg Hq Hb|m e q m' l Hg Hq Hb
                  |m e q m1 l trace m' x Hg Hq Hb Hrun IH].
  - split; [lia|done].
  - eapply Hone; eauto.
  - eapply Hone; eauto.
  - destruct (Hone _ _ _ _ _ _ Hq Hb) as (Hle1 & Hout1).
    destruct IH as (Hle2 & Hout2). split; [lia|].
    intros p Hp. rewrite Hout2, Hout1; [done| |]; intros k Hk; apply Hp; lia.
Qed.

(** *** The links of a page *)

Lemma collect_links_spec (base_url : pystr) (hrefs : list pystr) :
  forall acc links,
    collect_links base_url hrefs acc = Some links ->
    forall u, u ∈ links <->
              u ∈ acc \/ exists href, href ∈ hrefs /\ link_of base_url href u /\ in_scope u.
Proof.
  induction hrefs as [|href rest IH]; intros acc links; cbn [collect_links].
  { intros [= <-] u. split; [by left|]. intros [?|(href & Hin & _)]; [done|].
    by apply not_elem_of_nil in Hin. }
  assert (Hskip : forall links',
             (forall u, ~ (link_of base_url href u /\ in_scope u)) ->
             collect_links base_url rest acc = Some links' ->
             forall u, u ∈ links' <->
                       u ∈ acc \/ exists h, h ∈ href :: rest /\ link_of base_url h u /\ in_scope u).
  { intros links' Hno Hrec u. rewrite (IH _ _ Hrec u). split.
    - intros [?|(h & Hin & Hl)]; [by left|]. right. exists h. split; [by right|done].
    - intros [?|(h & Hin & Hl)]; [by left|].
      apply elem_of_cons in Hin as [->|Hin]; [by destruct (Hno u)|]. right. eauto. }
  destruct (strip href) as [|c s] eqn:Hstrip.
  { apply Hskip. intros u [[Hne _] _]. by rewrite Hstrip in Hne. }
  destruct (urljoin base_url (c :: s)) as [joined|] eqn:Hjoin; [|discriminate].
  destruct (netloc (normalize_url joined)) as [d|] eqn:Hnet; [|discriminate].
  assert (Hthis : forall u, link_of base_url href u -> u = normalize_url joined).
  { intros u (_ & j & Hj & ->). rewrite Hstrip, Hjoin in Hj. by injection Hj as ->. }
  destruct (contains (py "web.archive.org") d) eqn:Harch.
  { apply Hskip. intros u [Hl [Hdom _]]. apply Hthis in Hl as ->.
    rewrite Hnet in Hdom. injection Hdom as ->. discriminate. }
  destruct (bool_decide (d = TARGET_DOMAIN) && matches_pattern (normalize_url joined) URL_PATTERNS)
    eqn:Hin.
  - apply andb_true_iff in Hin as [Hd Hm]. apply bool_decide_eq_true in Hd as ->.
    intros Hrec u. rewrite (IH _ _ Hrec u). split.
    + intros [Hu|(h & Hh & Hl)].
      * apply elem_of_union in Hu as [Hu|Hu]; [|by left].
        apply elem_of_singleton in Hu as ->. right. exists href. split; [by left|].
        split; [|done]. split; [by rewrite Hstrip|]. exists joined. by rewrite Hstrip.
      * right. exists h. split; [by right|done].
    + intros [Hu|(h & Hh & Hl & Hs)].
      * left. apply elem_of_union. by right.
      * apply elem_of_cons in Hh as [->|Hh]; [|right; eauto].
        left. apply Hthis in Hl as ->. apply elem_of_union. left. by apply elem_of_singleton.
  - apply Hskip. intros u [Hl [Hdom Hm]]. apply Hthis in Hl as ->.
    rewrite Hnet in Hdom. injection Hdom as ->.
    rewrite Hm, bool_decide_eq_true_2 in Hin; done.
Qed.

Lemma collect_links_fails (base_url : pystr) (hrefs : list pystr) :
  forall acc,
    collect_links base_url hrefs acc = None <->
    exists href, href ∈ hrefs /\ breaks base_url href.
Proof.
  induction hrefs as [|href rest IH]; intros acc; cbn [collect_links].
  { split; [discriminate|]. intros (href & Hin & _). by apply not_elem_of_nil in Hin. }
  assert (Hskip : forall acc',
             ~ breaks base_url href ->
             collect_links base_url rest acc' = None <->
             exists h, h ∈ href :: rest /\ breaks base_url h).
  { intros acc' Hno. rewrite IH. split.
    - intros (h & Hin & Hb). exists h. split; [by right|done].
    - intros (h & Hin & Hb). apply elem_of_cons in Hin as [->|Hin]; [done|eauto]. }
  destruct (strip href) as [|c s] eqn:Hstrip.
  { apply Hskip. intros [Hne _]. by rewrite Hstrip in Hne. }
  destruct (urljoin base_url (c :: s)) as [joined|] eqn:Hjoin.
  2:{ split; [|done]. intros _. exists href. split; [by left|].
      split; [by rewrite Hstrip|]. left. by rewrite Hstrip. }
  destruct (netloc (normalize_url joined)) as [d|] eqn:Hnet.
  2:{ split; [|done]. intros _. exists href. split; [by left|].
      split; [by rewrite Hstrip|]. right. exists joined. by rewrite Hstrip. }
  assert (Hok : ~ breaks base_url href).
  { intros [_ [Hj|(j & Hj & Hn)]]; rewrite Hstrip, Hjoin in Hj; [done|].
    injection Hj as <-. by rewrite Hnet in Hn. }
  destruct (contains (py "web.archive.org") d); [by apply Hskip|].
  destruct (bool_decide (d = TARGET_DOMAIN) && matches_pattern (normalize_url joined) URL_PATTERNS);
    by apply Hskip.
Qed.

Lemma get_internal_links_in_scope (w w' : W) (current_url base_url : pystr)
    (links : gset pystr) (u : pystr) :
  get_internal_links w current_url base_url = (w', Returns links) ->
  u ∈ links ->
  in_scope u /\ normalize_url u = u.
Proof.
  unfold get_internal_links.
  destruct (http_hrefs w current_url) as [w1 [hrefs| |]]; try discriminate.
  - destruct (collect_links base_url hrefs ∅) as [links'|] eqn:Hc.
    + intros [= <- <-] Hu. apply (collect_links_spec _ _ _ _ Hc) in Hu as [Hu|Hu].
      { by apply not_elem_of_empty in Hu. }
      destruct Hu as (href & _ & (_ & joined & _ & ->) & Hs). split; [done|].
      apply normalize_url_idempotent.
    + intros [= <- <-] Hu. by apply not_elem_of_empty in Hu.
  - intros [= <- <-] Hu. by apply not_elem_of_empty in Hu.
Qed.


(** *** The state a call starts from *)

Lemma initial_state_fresh (w : W) (fs : disk) :
  initial_state false w fs =
  match fresh_state w with
  | (w1, Returns st) => (w1, Ok st)
  | (w1, Escapes) => (w1, KeyboardInterrupt)
  end.
Proof. reflexivity. Qed.

Lemma initial_state_fresh_inv (w w0 : W) (fs : disk) (st0 : crawl_state) :
  initial_state false w fs = (w0, Ok st0) -> fresh_state w = (w0, Returns st0).
Proof.
  rewrite initial_state_fresh. destruct (fresh_state w) as [w1 [st|]]; [|discriminate].
  by intros [= <- <-].
Qed.

(** A state file that is missing, cannot be unpickled or holds a false
    value sends a resumed call down the path of a fresh one. *)
Lemma initial_state_fallback (w : W) (fs : disk) :
  load_state state_file fs = None \/ load_state state_file fs = Some OtherFalse ->
  initial_state true w fs = initial_state false w fs.
Proof.
  intros H. unfold initial_state.
  destruct (true && path_exists state_file fs); [|done]. by destruct H as [-> | ->].
Qed.

(** A state file that holds a dumped state is taken as it is. *)
Lemma initial_state_resume (w : W) (fs : disk) (st : crawl_state) :
  state_files fs !! state_file = Some (Pickled st) ->
  initial_state true w fs = (w, Ok st).
Proof.
  intros H. unfold initial_state, path_exists, load_state. rewrite H.
  by rewrite bool_decide_eq_true_2 by eauto.
Qed.

(** The [finally] clause by what its write comes to. *)
Lemma final_checkpoint_spec (m : machine) :
  locals (final_checkpoint m) = locals m /\
  world (final_checkpoint m) = world m /\
  text_files (files (final_checkpoint m)) = text_files (files m) /\
  match write_file (world m) (files m) state_file with
  | Written => state_files (files (final_checkpoint m))
               = <[state_file := Pickled (locals m)]> (state_files (files m))
  | Refused => files (final_checkpoint m) = files m
  | Cut _ => state_files (files (final_checkpoint m))
             = <[state_file := Corrupt]> (state_files (files m))
  end.
Proof.
  unfold final_checkpoint, save_state. cbn.
  split; [done|]. split; [done|]. split; [apply put_state_text_files|].
  by destruct (write_file _ _ _).
Qed.

(** How the loop can be left. *)
Lemma run_exits (max_pages : Z) (m m' : machine) (x : loop_exit) (trace : list label) :
  run_of max_pages m trace m' x ->
  (x = GuardFalse /\
   (max_pages <= page_count (locals m') \/ queue (locals m') = [] \/
    shutdown_flag (world m') = true))
  \/ x = Interrupted \/ x = Crashed.
Proof.
  intros Hrun. pose proof (run_no_index_error _ _ _ _ _ Hrun) as Hx.
  destruct x; [left|by right; left|done|by right; right]. split; [done|].
  pose proof (run_exit_guard _ _ _ _ _ Hrun eq_refl) as Hg.
  unfold loop_guard in Hg.
  destruct (page_count (locals m') <? max_pages) eqn:Hpc; [|left; by apply Z.ltb_ge].
  destruct (bool_decide (queue (locals m') = [])) eqn:Hq;
    [right; left; by apply bool_decide_eq_true in Hq|].
  destruct (shutdown_flag (world m')); [by right; right|discriminate].
Qed.

(** A call that reached the loop, with the loop it ran. *)
Lemma create_finished_loop (max_pages : Z) (resume : bool) (fuel : nat) (w : W) (fs : disk)
    (m : machine) (x : loop_exit) (trace : list label) :
  create_nepali_corpus max_pages resume fuel w fs = Some (Finished m x trace) ->
  exists st0 w0 m0,
    initial_state resume w fs = (w0, Ok st0) /\
    crawl_loop max_pages fuel (Machine st0 w0 fs) = Some (m0, x, trace) /\
    m = final_checkpoint m0.
Proof.
  unfold create_nepali_corpus.
  destruct (initial_state resume w fs) as [w0 [st0| |]]; [|discriminate..].
  destruct (crawl_loop max_pages fuel _) as [[[m0 x0] tr]|] eqn:Hloop; [|discriminate].
  intros [= <- <- <-]. by exists st0, w0, m0.
Qed.



(** ** The claims *)

(** C1. A URL enters [visited] when the entry that carries it is dequeued and
    processed, never when it is enqueued. Over a whole run of the loop the
    processed URLs are pairwise distinct and were not visited before,
    [visited] grows by exactly those URLs and [crawled_pages] by their
    number. A pass that dequeues an already visited URL returns the machine
    unchanged: no counter moves, nothing is fetched, nothing is written. *)
Theorem visited_marks_once (max_pages : Z) (fuel : nat) (m m' : machine)
    (x : loop_exit) (trace : list label) :
  crawl_loop max_pages fuel m = Some (m', x, trace) ->
  NoDup (processed trace) /\
  (forall u, u ∈ processed trace -> u ∉ visited (locals m)) /\
  visited (locals m') = list_to_set (processed trace) ∪ visited (locals m) /\
  crawled_pages (locals m') = crawled_pages (locals m) + Z.of_nat (length (processed trace)) /\
  (forall e mv, fst e ∈ visited (locals mv) -> loop_body e mv = (mv, Next, Discarded e)) /\
  (forall e mv mv' f l,
      loop_body e mv = (mv', f, l) ->
      (l = Discarded e /\ mv' = mv) \/
      (exists children,
          l = Processed e children /\
          (fst e ∉ visited (locals mv)) /\
          visited (locals mv') = {[fst e]} ∪ visited (locals mv) /\
          crawled_pages (locals mv') = crawled_pages (locals mv) + 1 /\
          Forall (fun c => fst c ∉ visited (locals mv')) children)).
Proof.
  intros Hloop. apply crawl_loop_run in Hloop.
  destruct (run_visited _ _ _ _ _ Hloop) as (Hnd & Hfresh & Hvis & Hcr).
  repeat match goal with |- _ /\ _ => split end; try done.
  - intros e mv Hin. apply loop_body_discard. by left.
  - intros e mv mv' f l Hb.
    apply loop_body_spec in Hb as [(-> & -> & _)|(children & -> & Hnv & _ & Hv & Hc & _ & _ & Hch & _)].
    + by left.
    + right. exists children. repeat split; try done.
      eapply Forall_impl; [exact Hch|]. by intros c [_ ?].
Qed.

(** C2. The frontier is a first-in first-out queue: [pop0] takes the head,
    a pass appends the children of the page at the tail, and over a whole run
    the entries dequeued, followed by the entries still queued, are the
    entries initially queued followed by the entries enqueued, in that order.
    The processed URLs are the dequeued ones, in order, without those
    discarded. *)
Theorem frontier_is_fifo (max_pages : Z) (fuel : nat) (m m' : machine)
    (x : loop_exit) (trace : list label) :
  crawl_loop max_pages fuel m = Some (m', x, trace) ->
  queue (locals m) ++ appended trace = dequeued trace ++ queue (locals m') /\
  sublist (processed trace) (map fst (dequeued trace)) /\
  (forall (e : entry) (q : list entry), pop0 (e :: q) = Some (e, q)) /\
  (forall e q mq mq' f l,
      queue (locals mq) = e :: q ->
      loop_body e (set_queue q mq) = (mq', f, l) ->
      popped l = e /\ queue (locals mq') = q ++ enqueued l).
Proof.
  intros Hloop. apply crawl_loop_run in Hloop.
  split; [by eapply run_fifo|]. split; [apply processed_sublist|]. split; [done|].
  intros e q mq mq' f l Hq Hb. destruct (pass_spec _ _ _ _ _ _ Hq Hb) as (? & ? & _). done.
Qed.

(** The budget, from any state within it. *)
Lemma budget_from (max_pages : Z) (m : machine) :
  page_count (locals m) <= max_pages ->
  (exists fuel m' x trace, crawl_loop max_pages fuel m = Some (m', x, trace)) /\
  (forall fuel m' x trace,
      crawl_loop max_pages fuel m = Some (m', x, trace) ->
      (trace <> [] <-> loop_guard max_pages m = true) /\
      x <> IndexError /\
      page_count (locals m') <= max_pages /\
      (x = GuardFalse -> queue (locals m') <> [] -> shutdown_flag (world m') = false ->
       page_count (locals m') = max_pages)) /\
  (forall bigger fuel m' x trace,
      max_pages <= bigger ->
      crawl_loop bigger fuel m = Some (m', x, trace) ->
      max_pages <= page_count (locals m') ->
      exists fuel'' m'' x'' trace'',
        crawl_loop max_pages fuel'' m = Some (m'', x'', trace'') /\
        page_count (locals m'') = max_pages /\
        trace'' `prefix_of` trace).
Proof.
  intros Hle. split; [|split].
  - destruct (crawl_loop_terminates max_pages m) as (trace & m' & x & Hrun).
    exists (S (length trace)), m', x, trace. apply run_crawl_loop; [done|lia].
  - intros fuel m' x trace Hloop. apply crawl_loop_run in Hloop.
    repeat match goal with |- _ /\ _ => split end.
    + split.
      * intros Hne. inversion Hloop; subst; done.
      * intros Hg. inversion Hloop; subst; [congruence|done..].
    + by eapply run_no_index_error.
    + by eapply run_budget.
    + intros -> Hq Hflag. apply (run_exit_at_budget _ _ _ _ Hloop); try done.
      by apply (run_budget _ _ _ _ _ Hloop).
  - intros bigger fuel m' x trace Hbig Hloop Hge.
    apply crawl_loop_run in Hloop.
    destruct (run_smaller_budget _ _ _ _ _ _ Hloop Hbig Hle Hge)
      as (m'' & x'' & trace'' & Hrun & Hpc & Hpre).
    exists (S (length trace'')), m'', x'', trace''. split; [|done].
    apply run_crawl_loop; [done|lia].
Qed.

(** C3. The loop makes a pass exactly when [page_count < max_pages], the
    queue is not empty and no stop is requested. For a budget that is a
    count ([0 <= max_pages]): from a state within the budget the loop is
    always left, never beyond the budget, and when it is left through its
    guard with entries still queued and no stop requested, [page_count]
    equals [max_pages]; whenever the crawl under a larger budget saves at
    least [max_pages] pages, the crawl under [max_pages] makes the same
    passes up to the point where it stops with [page_count = max_pages];
    and a fresh crawl starts within the budget, so all of this holds of
    it. *)
Theorem budget_stops_crawl (max_pages : Z) :
  0 <= max_pages ->
  (forall m,
      loop_guard max_pages m = true <->
      page_count (locals m) < max_pages /\ queue (locals m) <> [] /\
      shutdown_flag (world m) = false) /\
  (forall m,
      page_count (locals m) <= max_pages ->
      (exists fuel m' x trace, crawl_loop max_pages fuel m = Some (m', x, trace)) /\
      (forall fuel m' x trace,
          crawl_loop max_pages fuel m = Some (m', x, trace) ->
          (trace <> [] <-> loop_guard max_pages m = true) /\
          x <> IndexError /\
          page_count (locals m') <= max_pages /\
          (x = GuardFalse -> queue (locals m') <> [] -> shutdown_flag (world m') = false ->
           page_count (locals m') = max_pages)) /\
      (forall bigger fuel m' x trace,
          max_pages <= bigger ->
          crawl_loop bigger fuel m = Some (m', x, trace) ->
          max_pages <= page_count (locals m') ->
          exists fuel'' m'' x'' trace'',
            crawl_loop max_pages fuel'' m = Some (m'', x'', trace'') /\
            page_count (locals m'') = max_pages /\
            trace'' `prefix_of` trace)) /\
  (forall fuel w fs m x trace,
      create_nepali_corpus max_pages false fuel w fs = Some (Finished m x trace) ->
      page_count (locals m) <= max_pages /\
      (x = GuardFalse -> queue (locals m) <> [] -> shutdown_flag (world m) = false ->
       page_count (locals m) = max_pages)).
Proof.
  intros Hpos. split; [apply loop_guard_iff|]. split; [apply budget_from|].
  intros fuel w fs m x trace Hrun.
  apply create_finished in Hrun as (st0 & w0 & m0 & Hinit & Hrun & ->).
  apply initial_state_fresh_inv, fresh_state_spec in Hinit as (links & _ & ->).
  assert (Hle : page_count (locals m0) <= max_pages)
    by (apply (run_budget _ _ _ _ _ Hrun); exact Hpos).
  split; [exact Hle|]. cbn. intros -> Hq Hflag.
  by apply (run_exit_at_budget _ _ _ _ Hrun).
Qed.

(** C4. A page that is dequeued and processed is accepted exactly when the
    extracted text is not empty and [splitlines] gives more than one line.
    For an accepted page the output folder is made first; when that raises,
    the exception leaves the loop, [page_count] is what it was and no file is
    touched. Otherwise the text is written to [page_{page_count + 1}.txt] in
    the output folder and [page_count] grows by one whatever becomes of the
    write: the file holds the text when the write succeeds, is left as it was
    when the file cannot be opened, and holds a beginning of the text when
    the write is cut short. A page that is not accepted leaves the text
    files and [page_count] as they were. Different counts give different
    file names, and over a run of the loop [page_count] never decreases and
    no text file changes other than the page files of the counts passed. *)
Theorem page_accepted_iff_multiline (e : entry) (m m' : machine) (f : flow) (l : label)
    (w1 : W) (t : option pystr) :
  fst e ∉ visited (locals m) ->
  snd e <= max_depth ->
  extract_nepali_text_from_url (world m) (fst e) = (w1, Returns t) ->
  loop_body e m = (m', f, l) ->
  (accepts t = true <->
   exists text, t = Some text /\ text <> [] /\ (1 < length (splitlines text))%nat) /\
  (accepts t = true ->
   exists text,
     t = Some text /\
     if makedirs w1 folder_path then
       f <> Crash /\
       page_count (locals m') = page_count (locals m) + 1 /\
       text_files (files m') =
         match write_file w1 (files m) (page_path (page_count (locals m) + 1)) with
         | Written => <[page_path (page_count (locals m) + 1) := text]> (text_files (files m))
         | Refused => text_files (files m)
         | Cut n =>
             <[page_path (page_count (locals m) + 1) := take n text]> (text_files (files m))
         end
     else
       f = Crash /\ page_count (locals m') = page_count (locals m) /\ files m' = files m) /\
  (accepts t = false ->
   f <> Crash /\
   text_files (files m') = text_files (files m) /\
   page_count (locals m') = page_count (locals m)) /\
  (forall n n', page_path n = page_path n' -> n = n') /\
  (forall max_pages fuel m0 m1 x trace,
      crawl_loop max_pages fuel m0 = Some (m1, x, trace) ->
      page_count (locals m0) <= page_count (locals m1) /\
      (forall p, (forall k, page_count (locals m0) < k <= page_count (locals m1) ->
                            p <> page_path k) ->
                 text_files (files m1) !! p = text_files (files m0) !! p)).
Proof.
  intros Hnv Hd Hex Hb. split; [apply accepts_iff|].
  pose proof (loop_body_saves _ _ _ _ _ _ _ Hnv Hd Hex Hb) as Hsaves.
  destruct (save_page_spec w1 t (marked e m) (files m)) as [(Hacc & Hs)|(text & -> & Hacc & Hs)].
  - rewrite Hs in Hsaves. destruct Hsaves as [(st2 & [= <- Hfs] & Hpc & Hf)|[[=] _]].
    split; [by rewrite Hacc|]. split; [|split].
    + intros _. by rewrite <- Hfs, Hpc.
    + apply page_path_inj.
    + intros max_pages fuel m0 m1 x trace Hloop. apply crawl_loop_run in Hloop.
      by apply (run_files _ _ _ _ _ Hloop).
  - split; [|split; [by rewrite Hacc|split]].
    + intros _. exists text. split; [done|]. cbn [marked page_count] in Hs.
      destruct (makedirs w1 folder_path); rewrite Hs in Hsaves.
      * destruct Hsaves as [(st2 & [= <- Hfs] & Hpc & Hf)|[[=] _]].
        split; [done|]. split; [by rewrite Hpc|]. rewrite <- Hfs.
        destruct (_ =? 0); rewrite ?put_state_text_files;
          by destruct (write_file w1 (files m) _).
      * destruct Hsaves as [(st2 & [=] & _)|(_ & -> & -> & _)]. done.
    + apply page_path_inj.
    + intros max_pages fuel m0 m1 x trace Hloop. apply crawl_loop_run in Hloop.
      by apply (run_files _ _ _ _ _ Hloop).
Qed.

(** C5. A fresh crawl seeds the frontier at depth 1. A pass over an entry at
    depth [d] enqueues entries at depth [d + 1] only, and enqueues any only
    when [d < max_depth]. So, for [max_depth >= 1], every entry that a fresh
    crawl ever holds, dequeues or enqueues has a depth between 1 and
    [max_depth]; and the loop keeps the depths within these bounds from any
    frontier that is within them, such as one restored from a checkpoint. *)
Theorem depth_assigned_at_enqueue (max_pages : Z) (fuel : nat) (w : W) (fs : disk)
    (m : machine) (x : loop_exit) (trace : list label) :
  1 <= max_depth ->
  create_nepali_corpus max_pages false fuel w fs = Some (Finished m x trace) ->
  Forall (fun e => 1 <= snd e <= max_depth)
         (queue (locals m) ++ dequeued trace ++ appended trace) /\
  (forall w0 w1 st,
      fresh_state w0 = (w1, Returns st) -> Forall (fun e => snd e = 1) (queue st)) /\
  (forall e mq mq' f l,
      loop_body e mq = (mq', f, l) ->
      queue (locals mq') = queue (locals mq) ++ enqueued l /\
      Forall (fun c => snd c = snd e + 1) (enqueued l) /\
      (enqueued l <> [] -> snd e < max_depth)) /\
  (forall fuel0 m0 m1 x0 trace0,
      Forall in_depth (queue (locals m0)) ->
      crawl_loop max_pages fuel0 m0 = Some (m1, x0, trace0) ->
      Forall in_depth (queue (locals m1) ++ dequeued trace0 ++ appended trace0)).
Proof.
  intros Hmax Hrun.
  assert (Hkeep : forall m0 m1 x0 trace0,
             Forall in_depth (queue (locals m0)) ->
             run_of max_pages m0 trace0 m1 x0 ->
             Forall in_depth (queue (locals m1) ++ dequeued trace0 ++ appended trace0)).
  { intros m0 m1 x0 trace0 Hin Hrun0.
    destruct (run_depth _ _ _ _ _ Hrun0 Hin) as [Hq Happ].
    pose proof (run_fifo _ _ _ _ _ Hrun0) as Hfifo.
    assert (Forall in_depth (dequeued trace0 ++ queue (locals m1))) as Hdq.
    { rewrite <- Hfifo. apply Forall_app. by split. }
    apply Forall_app in Hdq as [Hdq _]. rewrite !Forall_app. done. }
  assert (Hseed : forall w0 w1 st,
             fresh_state w0 = (w1, Returns st) -> Forall (fun e => snd e = 1) (queue st)).
  { intros w0 w1 st Hfresh. apply fresh_state_spec in Hfresh as (links & _ & ->). cbn.
    apply Forall_forall. intros e He. apply list_elem_of_fmap in He as (link & -> & _). done. }
  split; [|split; [exact Hseed|split]].
  - apply create_finished in Hrun as (st0 & w0 & m0 & Hinit & Hrun & ->).
    apply initial_state_fresh_inv, Hseed in Hinit.
    assert (Forall in_depth (queue (locals (Machine st0 w0 fs)))) as Hin.
    { cbn. eapply Forall_impl; [exact Hinit|]. intros e He. unfold in_depth. cbn beta in He. lia. }
    exact (Hkeep _ _ _ _ Hin Hrun).
  - intros e mq mq' f l Hb.
    apply loop_body_spec in Hb as [(-> & -> & _)|(children & -> & _ & _ & _ & _ & Hq & _ & Hch & Hne)].
    + cbn. rewrite app_nil_r. repeat split; [constructor|done].
    + cbn. split; [done|]. split.
      * eapply Forall_impl; [exact Hch|]. by intros c [? _].
      * intros H. by apply Hne.
  - intros fuel0 m0 m1 x0 trace0 Hin Hloop. apply crawl_loop_run in Hloop. by eapply Hkeep.
Qed.

(** C6. [page_count <= crawled_pages] holds in a fresh state, where both are
    zero, and every pass of the loop keeps it: a pass that processes a page
    adds one to [crawled_pages] and at most one to [page_count], a pass that
    discards its entry changes neither. The loop as a whole keeps it. *)
Theorem saved_le_crawled (max_pages : Z) (fuel : nat) (m m' : machine)
    (x : loop_exit) (trace : list label) :
  page_count (locals m) <= crawled_pages (locals m) ->
  crawl_loop max_pages fuel m = Some (m', x, trace) ->
  page_count (locals m') <= crawled_pages (locals m') /\
  (forall w w1 st,
      fresh_state w = (w1, Returns st) -> page_count st = 0 /\ crawled_pages st = 0) /\
  (forall e q mq mq' f l,
      queue (locals mq) = e :: q ->
      loop_body e (set_queue q mq) = (mq', f, l) ->
      (page_count (locals mq) <= crawled_pages (locals mq) ->
       page_count (locals mq') <= crawled_pages (locals mq')) /\
      ((l = Discarded e /\
        page_count (locals mq') = page_count (locals mq) /\
        crawled_pages (locals mq') = crawled_pages (locals mq))
       \/
       (exists children,
           l = Processed e children /\
           crawled_pages (locals mq') = crawled_pages (locals mq) + 1 /\
           (page_count (locals mq') = page_count (locals mq) \/
            page_count (locals mq') = page_count (locals mq) + 1)))).
Proof.
  intros Hle Hloop. apply crawl_loop_run in Hloop.
  split; [by eapply run_counters|]. split.
  - intros w w1 st Hfresh. apply fresh_state_spec in Hfresh as (links & _ & ->). done.
  - intros e q mq mq' f l Hq Hb. split; [by eapply pass_counters|].
    destruct (pass_spec _ _ _ _ _ _ Hq Hb) as (_ & _ & [(-> & -> & _)|Hp]).
    + by left.
    + destruct Hp as (Hl & _ & _ & _ & Hcr & Hpc & _). right. eauto.
Qed.

(** C7. [save_state] is called with the whole state (the queue, the visited
    set and both counters) by every pass that accepts a page and thereby
    makes [page_count] a multiple of [SAVE_INTERVAL], and again by every
    call of [create_nepali_corpus] that enters the loop, however the loop is
    left: through the guard (budget reached, queue empty or stop requested),
    through a keyboard interrupt, or through the exception of an output
    folder that cannot be made. What is on disk afterwards depends on the
    write: the state file holds that state when the write succeeds, is left
    as it was when the file cannot be opened, and cannot be loaded when the
    dump is cut short. The call always ends. *)
Theorem checkpoint_on_interval_and_exit (max_pages : Z) :
  (forall e m m' f l w1 t,
      fst e ∉ visited (locals m) ->
      snd e <= max_depth ->
      extract_nepali_text_from_url (world m) (fst e) = (w1, Returns t) ->
      accepts t = true ->
      (page_count (locals m) + 1) `mod` SAVE_INTERVAL = 0 ->
      makedirs w1 folder_path = true ->
      loop_body e m = (m', f, l) ->
      exists fs1,
        state_files fs1 = state_files (files m) /\
        text_files fs1 = text_files (files m') /\
        files m' =
          save_state w1 state_file
            (CrawlState (queue (locals m)) ({[fst e]} ∪ visited (locals m))
                        (page_count (locals m) + 1) (crawled_pages (locals m) + 1)) fs1 /\
        match write_file w1 fs1 state_file with
        | Written =>
            state_files (files m') !! state_file =
              Some (Pickled (CrawlState (queue (locals m)) ({[fst e]} ∪ visited (locals m))
                                        (page_count (locals m) + 1)
                                        (crawled_pages (locals m) + 1)))
        | Refused => state_files (files m') = state_files (files m)
        | Cut _ => state_files (files m') !! state_file = Some Corrupt
        end) /\
  (forall resume fuel w fs m x trace,
      create_nepali_corpus max_pages resume fuel w fs = Some (Finished m x trace) ->
      exists st0 w0 m0,
        initial_state resume w fs = (w0, Ok st0) /\
        crawl_loop max_pages fuel (Machine st0 w0 fs) = Some (m0, x, trace) /\
        m = Machine (locals m0) (world m0)
                    (save_state (world m0) state_file (locals m0) (files m0)) /\
        match write_file (world m0) (files m0) state_file with
        | Written => state_files (files m) !! state_file = Some (Pickled (locals m))
        | Refused => files m = files m0
        | Cut _ => state_files (files m) !! state_file = Some Corrupt
        end /\
        ((x = GuardFalse /\
          (max_pages <= page_count (locals m) \/ queue (locals m) = [] \/
           shutdown_flag (world m) = true))
         \/ x = Interrupted \/ x = Crashed)) /\
  (forall resume w fs,
      exists fuel r, create_nepali_corpus max_pages resume fuel w fs = Some r).
Proof.
  split; [|split].
  - intros e m m' f l w1 t Hnv Hd Hex Hacc Hmod Hmk Hb.
    pose proof (loop_body_saves _ _ _ _ _ _ _ Hnv Hd Hex Hb) as Hsaves.
    destruct (save_page_spec w1 t (marked e m) (files m)) as [(Hno & _)|(text & -> & _ & Hs)];
      [congruence|].
    rewrite Hmk in Hs. cbn [marked page_count queue visited crawled_pages] in Hs.
    rewrite (proj2 (Z.eqb_eq _ _) Hmod) in Hs. rewrite Hs in Hsaves.
    destruct Hsaves as [(st2 & [= _ Hfs] & _)|[[=] _]].
    eexists. split; [apply put_text_state_files|]. rewrite <- Hfs.
    split; [by rewrite put_state_text_files|]. split; [done|].
    destruct (write_file w1 _ state_file); cbn; rewrite ?lookup_insert_eq; try done.
    apply put_text_state_files.
  - intros resume fuel w fs m x trace Hrun.
    apply create_finished_loop in Hrun as (st0 & w0 & m0 & Hinit & Hloop & ->).
    exists st0, w0, m0. split; [done|]. split; [done|]. split; [done|].
    split.
    + unfold final_checkpoint, save_state. cbn.
      destruct (write_file _ _ _); cbn; rewrite ?lookup_insert_eq; done.
    + apply crawl_loop_run in Hloop. exact (run_exits _ _ _ _ _ Hloop).
  - apply create_terminates.
Qed.


(** C9. [normalize_url] doubles a single slash after [http:] or [https:]
    (the slash being single when a character other than a slash follows it),
    so [http:/example.com/a] becomes [http://example.com/a]; it returns a URL
    that starts with [http://] or [https://], and any URL the pattern does not
    match, as it is; and applying it twice is applying it once. *)
Theorem normalize_url_repairs :
  (forall scheme c rest,
      scheme = py "http:" \/ scheme = py "https:" ->
      c <> slash ->
      normalize_url (scheme ++ slash :: c :: rest) = scheme ++ slash :: slash :: c :: rest) /\
  normalize_url (py "http:/example.com/a") = py "http://example.com/a" /\
  (forall scheme rest,
      scheme = py "http:" \/ scheme = py "https:" ->
      normalize_url (scheme ++ slash :: slash :: rest) = scheme ++ slash :: slash :: rest) /\
  (forall u, malformed_scheme u = None -> normalize_url u = u) /\
  (forall u, normalize_url (normalize_url u) = normalize_url u).
Proof.
  split; [apply normalize_url_single_slash|]. split; [reflexivity|].
  split; [apply normalize_url_double_slash|]. split; [|apply normalize_url_idempotent].
  intros u Hu. unfold normalize_url. by rewrite Hu.
Qed.

(** C10. [clean_text] keeps only characters of the Devanagari block
    (U+0900 to U+097F), white space and the marks danda, [?] and [!]; a
    space-join of cleaned paragraphs holds only such characters; and every
    text file found after a call of [create_nepali_corpus] is either a file
    that was there before the call, unchanged, or holds only such
    characters. *)
Theorem saved_text_alphabet (max_pages : Z) (resume : bool) (fuel : nat) (w : W) (fs : disk)
    (m : machine) (x : loop_exit) (trace : list label) :
  create_nepali_corpus max_pages resume fuel w fs = Some (Finished m x trace) ->
  (forall s, Forall allowed_char (clean_text s)) /\
  (forall parts, Forall allowed_char (join (py " ") (map clean_text parts))) /\
  (forall w0 w1 u text,
      extract_nepali_text_from_url w0 u = (w1, Returns (Some text)) ->
      Forall allowed_char text) /\
  (forall p text,
      text_files (files m) !! p = Some text ->
      text_files fs !! p = Some text \/ Forall allowed_char text).
Proof.
  intros Hrun. split; [apply clean_text_allowed|]. split; [|split].
  - intros parts. apply join_allowed. apply Forall_forall. intros t Ht.
    apply list_elem_of_fmap in Ht as (s & -> & _). apply clean_text_allowed.
  - intros w0 w1 u text. apply extract_allowed.
  - apply create_finished in Hrun as (st0 & w0 & m0 & _ & Hrun & ->).
    intros p text Hp. cbn in Hp. unfold save_state in Hp. rewrite put_state_text_files in Hp.
    by apply (run_texts _ _ _ _ _ Hrun) in Hp.
Qed.

(** ** Further properties of the code *)

(** *** [clean_text] *)

Lemma allowed_retained (c : Z) : allowed_char c <-> retained c = true.
Proof.
  unfold allowed_char, retained, is_devanagari.
  rewrite !orb_true_iff, andb_true_iff, !Z.eqb_eq, !Z.leb_le. tauto.
Qed.

(** X1. [clean_text] only deletes characters: its result is a subsequence of
    the text; it changes nothing in a text of allowed characters; cleaning
    twice is cleaning once; and it can be applied piece by piece. *)
Theorem clean_text_only_deletes (s t : pystr) :
  sublist (clean_text s) s /\
  (Forall allowed_char s -> clean_text s = s) /\
  clean_text (clean_text s) = clean_text s /\
  clean_text (s ++ t) = clean_text s ++ clean_text t.
Proof.
  assert (Hfix : forall r, Forall allowed_char r -> clean_text r = r).
  { induction 1 as [|c r Hc _ IH]; [done|]. unfold clean_text, pystr in *.
    rewrite filter_cons. destruct (decide (retained c = true)) as [|Hno]; [by rewrite IH|].
    by apply allowed_retained in Hc. }
  split; [apply sublist_filter|]. split; [apply Hfix|]. split.
  - apply Hfix, clean_text_allowed.
  - apply filter_app.
Qed.

(** *** [normalize_url] *)

Lemma malformed_scheme_double_slash (scheme rest : pystr) :
  scheme = py "http:" \/ scheme = py "https:" ->
  malformed_scheme (scheme ++ slash :: slash :: rest) = None.
Proof. intros [-> | ->]; reflexivity. Qed.

(** X2. The result of [normalize_url] never matches the repair pattern again;
    it is the argument with at most one character more; and the single-slash
    and the double-slash spelling of a URL have the same result, which is what
    lets the visited set treat them as one page. *)
Theorem normalize_url_canonical (u : pystr) :
  malformed_scheme (normalize_url u) = None /\
  (length u <= length (normalize_url u) <= S (length u))%nat /\
  (forall scheme c rest,
      scheme = py "http:" \/ scheme = py "https:" ->
      c <> slash ->
      normalize_url (scheme ++ slash :: c :: rest)
      = normalize_url (scheme ++ slash :: slash :: c :: rest)).
Proof.
  split; [|split].
  - destruct (malformed_scheme u) as [n|] eqn:Hm.
    + destruct (malformed_scheme_inv _ _ Hm) as (scheme & c & rest & Hs & Hc & ->).
      rewrite (normalize_url_single_slash _ _ _ Hs Hc).
      by apply malformed_scheme_double_slash.
    + unfold normalize_url. by rewrite Hm.
  - destruct (malformed_scheme u) as [n|] eqn:Hm.
    + destruct (malformed_scheme_inv _ _ Hm) as (scheme & c & rest & Hs & Hc & ->).
      rewrite (normalize_url_single_slash _ _ _ Hs Hc). rewrite !length_app. cbn. lia.
    + unfold normalize_url. rewrite Hm. lia.
  - intros scheme c rest Hs Hc.
    rewrite (normalize_url_single_slash _ _ _ Hs Hc).
    symmetry. apply (normalize_url_double_slash scheme (c :: rest) Hs).
Qed.

(** *** Lines and acceptance *)

Definition no_break (s : pystr) : Prop := Forall (fun c => is_linebreak c = false) s.

Lemma splitlines_from_no_break (s : pystr) :
  no_break s ->
  forall after_cr cur, (length (splitlines_from after_cr cur s) <= 1)%nat.
Proof.
  induction 1 as [|c s Hc _ IH]; intros after_cr cur; cbn [splitlines_from].
  - destruct cur; cbn; lia.
  - assert ((c =? 10) = false) as Hlf.
    { apply Z.eqb_neq. intros ->. discriminate. }
    rewrite Hlf, andb_false_r, Hc. apply IH.
Qed.

Lemma no_break_accepts (text : pystr) : no_break text -> accepts (Some text) = false.
Proof.
  intros H. unfold accepts. destruct text as [|c text]; [done|].
  apply Z.ltb_ge. pose proof (splitlines_from_no_break _ H false []) as Hlen.
  unfold splitlines. lia.
Qed.

Lemma clean_text_no_break (s : pystr) : no_break s -> no_break (clean_text s).
Proof.
  unfold no_break. rewrite !Forall_forall. intros H c Hc.
  apply list_elem_of_filter in Hc as [_ Hc]. auto.
Qed.

Lemma join_no_break (parts : list pystr) :
  Forall no_break parts -> no_break (join (py " ") parts).
Proof.
  induction 1 as [|p rest Hp Hrest IH]; [constructor|].
  destruct rest as [|p' rest]; [done|].
  change (join (py " ") (p :: p' :: rest)) with (p ++ py " " ++ join (py " ") (p' :: rest)).
  unfold no_break in *. rewrite !Forall_app. split; [done|]. split; [|done].
  by apply Forall_singleton.
Qed.

Lemma nepali_texts_no_break (paragraphs : list pystr) :
  Forall (fun p => no_break (strip p)) paragraphs ->
  forall w w' texts, nepali_texts w paragraphs = (w', texts) -> Forall no_break texts.
Proof.
  induction 1 as [|p rest Hp _ IH]; intros w w' texts; cbn [nepali_texts].
  { intros [= <- <-]. constructor. }
  destruct (strip p) as [|c text] eqn:Hstrip; [apply IH|].
  destruct (is_nepali w (c :: text)) as [w1 [|]]; [|apply IH].
  destruct (nepali_texts w1 rest) as [w2 texts'] eqn:Hrest.
  intros [= <- <-]. constructor; [by apply clean_text_no_break|]. eapply IH, Hrest.
Qed.

(** X3. A page is saved only if some paragraph has a line boundary inside its
    text: when no paragraph of the page, once stripped, contains a line
    boundary, the extracted text is a single line (or nothing) and the page is
    not accepted, however much Nepali text it holds. *)
Theorem single_line_page_rejected (w w1 : W) (u : pystr) (paragraphs : list pystr) :
  http_paragraphs w u = (w1, Ok paragraphs) ->
  Forall (fun p => no_break (strip p)) paragraphs ->
  exists w2 t, extract_nepali_text_from_url w u = (w2, Returns t) /\ accepts t = false.
Proof.
  intros Hhttp Hlines. unfold extract_nepali_text_from_url. rewrite Hhttp.
  destruct (nepali_texts w1 paragraphs) as [w2 texts] eqn:Ht.
  pose proof (nepali_texts_no_break _ Hlines _ _ _ Ht) as Hnb.
  eexists _, _. split; [reflexivity|].
  destruct texts as [|t texts]; [done|].
  apply no_break_accepts. by apply (join_no_break (t :: texts)).
Qed.

(** *** [extract_nepali_text_from_url] *)

Lemma nepali_texts_shape (paragraphs : list pystr) :
  forall w w' texts,
    nepali_texts w paragraphs = (w', texts) ->
    exists kept,
      sublist kept paragraphs /\ Forall (fun p => strip p <> []) kept /\
      texts = map (fun p => clean_text (strip p)) kept.
Proof.
  induction paragraphs as [|p rest IH]; intros w w' texts; cbn [nepali_texts].
  { intros [= <- <-]. exists []. by repeat split. }
  destruct (strip p) as [|c text] eqn:Hstrip.
  { intros H. destruct (IH _ _ _ H) as (kept & Hsub & Hne & ->).
    exists kept. split; [by apply sublist_cons|done]. }
  destruct (is_nepali w (c :: text)) as [w1 [|]].
  - destruct (nepali_texts w1 rest) as [w2 texts'] eqn:Hrest.
    intros [= <- <-]. destruct (IH _ _ _ Hrest) as (kept & Hsub & Hne & ->).
    exists (p :: kept). split; [by apply sublist_skip|]. split.
    + constructor; [by rewrite Hstrip|done].
    + cbn. by rewrite Hstrip.
  - intros H. destruct (IH _ _ _ H) as (kept & Hsub & Hne & ->).
    exists kept. split; [by apply sublist_cons|done].
Qed.

Lemma nepali_texts_none (paragraphs : list pystr) :
  (forall w text, snd (detect w text) <> Ok (py "ne")) ->
  forall w, snd (nepali_texts w paragraphs) = [].
Proof.
  intros Hdet. induction paragraphs as [|p rest IH]; intros w; cbn [nepali_texts]; [done|].
  destruct (strip p) as [|c text]; [apply IH|].
  unfold is_nepali. specialize (Hdet w (c :: text)).
  destruct (detect w (c :: text)) as [w1 [lang| |]]; cbn in Hdet; try apply IH.
  rewrite bool_decide_eq_false_2; [apply IH|]. intros ->. done.
Qed.

(** X4. What [extract_nepali_text_from_url] returns. A text it returns is
    the space-join of the cleaned, stripped texts of some of the page's
    paragraphs, in page order, all of them non-blank. A failed request gives
    no text. So does a page on which the detector never answers ["ne"],
    whether it answers something else or raises: the filter fails closed. *)
Theorem extract_text_shape (w : W) (u : pystr) :
  (forall w' text,
      extract_nepali_text_from_url w u = (w', Returns (Some text)) ->
      exists w1 paragraphs kept,
        http_paragraphs w u = (w1, Ok paragraphs) /\
        sublist kept paragraphs /\ kept <> [] /\
        Forall (fun p => strip p <> []) kept /\
        text = join (py " ") (map (fun p => clean_text (strip p)) kept)) /\
  (forall w1, http_paragraphs w u = (w1, Exception) ->
              extract_nepali_text_from_url w u = (w1, Returns None)) /\
  ((forall w0 text, snd (detect w0 text) <> Ok (py "ne")) ->
   snd (extract_nepali_text_from_url w u) = Returns None \/
   snd (extract_nepali_text_from_url w u) = Escapes).
Proof.
  split; [|split].
  - intros w' text. unfold extract_nepali_text_from_url.
    destruct (http_paragraphs w u) as [w1 [paragraphs| |]]; try discriminate.
    destruct (nepali_texts w1 paragraphs) as [w2 texts] eqn:Ht.
    destruct (nepali_texts_shape _ _ _ _ Ht) as (kept & Hsub & Hne & ->).
    destruct kept as [|p kept]; [discriminate|].
    intros [= <- <-]. exists w1, paragraphs, (p :: kept). by repeat split.
  - intros w1 Hhttp. unfold extract_nepali_text_from_url. by rewrite Hhttp.
  - intros Hdet. unfold extract_nepali_text_from_url.
    destruct (http_paragraphs w u) as [w1 [paragraphs| |]]; cbn; auto.
    pose proof (nepali_texts_none paragraphs Hdet w1) as Hnone.
    destruct (nepali_texts w1 paragraphs) as [w2 texts]. cbn in Hnone. subst texts.
    by left.
Qed.

(** *** [get_internal_links] *)

(** X5. The links [get_internal_links] returns. When the page is fetched and
    no library call raises on any of its anchors, the result is exactly the
    set of the URLs that some non-blank anchor resolves and normalizes to,
    that lie on the target domain and that match a pattern; neither the order
    of the anchors nor their repetition matters, and the test for the web
    archive never excludes a link the other two tests admit. *)
Theorem internal_links_exact (w w' : W) (current_url base_url : pystr) (hrefs : list pystr) :
  http_hrefs w current_url = (w', Ok hrefs) ->
  (forall href, href ∈ hrefs -> ~ breaks base_url href) ->
  exists links,
    get_internal_links w current_url base_url = (w', Returns links) /\
    forall u, u ∈ links <->
              exists href, href ∈ hrefs /\ link_of base_url href u /\ in_scope u.
Proof.
  intros Hhttp Hfine. unfold get_internal_links. rewrite Hhttp.
  destruct (collect_links base_url hrefs ∅) as [links|] eqn:Hc.
  - exists links. split; [done|]. intros u.
    rewrite (collect_links_spec _ _ _ _ Hc u). split; [|by right].
    intros [Hu|?]; [|done]. by apply not_elem_of_empty in Hu.
  - apply collect_links_fails in Hc as (href & Hin & Hb). by destruct (Hfine href Hin).
Qed.

(** X6. [get_internal_links] never returns a link out of scope, and fails to
    nothing: every URL in its result lies on the target domain, matches a
    pattern and is left unchanged by [normalize_url]; when the request
    fails, or a library call raises on any one anchor of the page, the result
    is the empty set, whatever the other anchors are; and only a keyboard
    interrupt during the request escapes it. *)
Theorem internal_links_sound (w : W) (current_url base_url : pystr) :
  (forall w' links u,
      get_internal_links w current_url base_url = (w', Returns links) ->
      u ∈ links ->
      in_scope u /\ normalize_url u = u) /\
  (forall w', http_hrefs w current_url = (w', Exception) ->
              get_internal_links w current_url base_url = (w', Returns ∅)) /\
  (forall w' hrefs href,
      http_hrefs w current_url = (w', Ok hrefs) ->
      href ∈ hrefs -> breaks base_url href ->
      get_internal_links w current_url base_url = (w', Returns ∅)) /\
  (forall w', get_internal_links w current_url base_url = (w', Escapes) <->
              http_hrefs w current_url = (w', KeyboardInterrupt)).
Proof.
  split; [|split; [|split]].
  - intros w' links u. apply get_internal_links_in_scope.
  - intros w' Hhttp. unfold get_internal_links. by rewrite Hhttp.
  - intros w' hrefs href Hhttp Hin Hb. unfold get_internal_links. rewrite Hhttp.
    rewrite (proj2 (collect_links_fails base_url hrefs ∅)); [done|eauto].
  - intros w'. unfold get_internal_links.
    destruct (http_hrefs w current_url) as [w1 [hrefs| |]].
    + destruct (collect_links base_url hrefs ∅); split; discriminate.
    + split; discriminate.
    + split; intros [= <-]; done.
Qed.

(** *** Resuming *)

(** X8. What a call with [resume] starts from, by what the state file
    holds. A dictionary that [save_state] dumped is taken as it is, without
    any request to the site, and when it has the budget used up the call
    makes no pass. So after a call whose last write succeeded, the next call
    starts from the very state the first ended in, whatever the site does in
    between. A value that is false sends the call down the path of a fresh
    crawl. A value that is true but has not the four keys is not caught: the
    first subscript raises before the loop, and the call is left with
    nothing fetched and nothing written. *)
Theorem resume_continues (max_pages : Z) :
  (forall w fs st,
      state_files fs !! state_file = Some (Pickled st) ->
      initial_state true w fs = (w, Ok st) /\
      (max_pages <= page_count st ->
       forall fuel,
         create_nepali_corpus max_pages true (S fuel) w fs
         = Some (Finished (Machine st w (save_state w state_file st fs)) GuardFalse []))) /\
  (forall resume fuel w fs st0 w0 m0 x trace w',
      initial_state resume w fs = (w0, Ok st0) ->
      crawl_loop max_pages fuel (Machine st0 w0 fs) = Some (m0, x, trace) ->
      write_file (world m0) (files m0) state_file = Written ->
      create_nepali_corpus max_pages resume fuel w fs
      = Some (Finished (final_checkpoint m0) x trace) /\
      initial_state true w' (files (final_checkpoint m0)) = (w', Ok (locals m0))) /\
  (forall w fs,
      state_files fs !! state_file = Some FalseValue ->
      initial_state true w fs = initial_state false w fs /\
      forall fuel,
        create_nepali_corpus max_pages true fuel w fs
        = create_nepali_corpus max_pages false fuel w fs) /\
  (forall w fs,
      state_files fs !! state_file = Some Misshapen ->
      forall fuel, create_nepali_corpus max_pages true fuel w fs = Some (Aborted w fs)).
Proof.
  split; [|split; [|split]].
  - intros w fs st Hst. pose proof (initial_state_resume w fs st Hst) as Hinit.
    split; [done|]. intros Hfull fuel. unfold create_nepali_corpus. rewrite Hinit.
    cbn [crawl_loop]. unfold loop_guard. cbn.
    by rewrite (proj2 (Z.ltb_ge _ _) Hfull).
  - intros resume fuel w fs st0 w0 m0 x trace w' Hinit Hloop Hw. split.
    + unfold create_nepali_corpus. by rewrite Hinit, Hloop.
    + apply initial_state_resume. unfold final_checkpoint, save_state. cbn.
      rewrite Hw. cbn. by rewrite lookup_insert_eq.
  - intros w fs Hst.
    assert (Hinit : initial_state true w fs = initial_state false w fs).
    { apply initial_state_fallback. right. unfold load_state. by rewrite Hst. }
    split; [done|]. intros fuel. unfold create_nepali_corpus. by rewrite Hinit.
  - intros w fs Hst fuel. unfold create_nepali_corpus, initial_state, path_exists, load_state.
    rewrite Hst. by rewrite bool_decide_eq_true_2 by eauto.
Qed.

(** *** Breadth-first order *)

(** The frontier holds its entries in order of depth, none deeper than one
    level below the first. *)
Definition level_order (q : list entry) : Prop :=
  StronglySorted Z.le (map snd q) /\
  forall e, head q = Some e -> Forall (fun c => snd c <= snd e + 1) q.

Lemma sorted_cons_head (d : Z) (ds : list Z) :
  StronglySorted Z.le ds ->
  (forall d', head ds = Some d' -> d <= d') ->
  StronglySorted Z.le (d :: ds).
Proof.
  intros Hs Hhd. constructor; [done|]. destruct ds as [|d' ds]; [constructor|].
  specialize (Hhd d' eq_refl). apply StronglySorted_cons in Hs as [Hall _].
  constructor; [done|]. eapply Forall_impl; [exact Hall|]. cbn. intros. lia.
Qed.

Lemma level_order_pass (e : entry) (q children : list entry) :
  level_order (e :: q) ->
  Forall (fun c => snd c = snd e + 1) children ->
  level_order (q ++ children) /\
  (forall c, head (q ++ children) = Some c -> snd e <= snd c).
Proof.
  intros [Hs Hb] Hch. specialize (Hb e eq_refl).
  cbn in Hs. apply StronglySorted_cons in Hs as [Hge Hs].
  apply Forall_cons in Hb as [_ Hb].
  assert (Hall : Forall (fun c => snd e <= snd c <= snd e + 1) (q ++ children)).
  { apply Forall_app. split.
    - apply Forall_forall. intros c Hc. rewrite Forall_forall in Hb. rewrite Forall_forall in Hge.
      split; [|by apply Hb]. apply Hge. apply list_elem_of_fmap. eauto.
    - eapply Forall_impl; [exact Hch|]. cbn. intros. lia. }
  split; [split|].
  - rewrite map_app. apply StronglySorted_app. split; [|split; [done|]].
    + intros d1 d2 H1 H2. apply list_elem_of_fmap in H1 as (c1 & -> & H1).
      apply list_elem_of_fmap in H2 as (c2 & -> & H2).
      rewrite Forall_forall in Hb. rewrite Forall_forall in Hch.
      rewrite (Hch _ H2). by apply Hb.
    + clear -Hch. induction Hch as [|c cs Hc Hcs IH]; cbn; constructor; [done|].
      apply Forall_forall. intros d Hd. apply list_elem_of_fmap in Hd as (c' & -> & Hc').
      rewrite Forall_forall in Hcs. rewrite (Hcs _ Hc'). lia.
  - intros c Hc. assert (c ∈ q ++ children) as Hin by (by apply head_Some_elem_of).
    rewrite Forall_forall in Hall. pose proof (Hall _ Hin).
    apply Forall_forall. intros c' Hc'. specialize (Hall _ Hc'). lia.
  - intros c Hc. assert (c ∈ q ++ children) as Hin by (by apply head_Some_elem_of).
    rewrite Forall_forall in Hall. by apply Hall.
Qed.

Lemma run_level_order (max_pages : Z) (m m' : machine) (x : loop_exit) (trace : list label) :
  run_of max_pages m trace m' x ->
  level_order (queue (locals m)) ->
  level_order (queue (locals m')) /\
  StronglySorted Z.le (map snd (queue (locals m) ++ appended trace)).
Proof.
  assert (Hone : forall m e q m1 f l,
    queue (locals m) = e :: q -> loop_body e (set_queue q m) = (m1, f, l) ->
    level_order (queue (locals m)) ->
    level_order (queue (locals m1)) /\
    (forall c, head (queue (locals m1)) = Some c -> snd e <= snd c)).
  { intros m0 e q m1 f l Hq Hb Hlo. rewrite Hq in Hlo.
    destruct (pass_spec _ _ _ _ _ _ Hq Hb) as (_ & Hq1 & Hcases). rewrite Hq1.
    apply level_order_pass; [done|].
    destruct Hcases as [(-> & _)|(_ & _ & _ & _ & _ & _ & Hch & _)]; [constructor|done]. }
  induction 1 as [m Hg|m e q m' l Hg Hq Hb|m e q m' l Hg Hq Hb
                  |m e q m1 l trace m' x Hg Hq Hb Hrun IH]; intros Hlo.
  - split; [done|]. unfold appended. cbn. rewrite app_nil_r. apply Hlo.
  - destruct (Hone _ _ _ _ _ _ Hq Hb Hlo) as [Hlo1 Hhd].
    destruct (pass_spec _ _ _ _ _ _ Hq Hb) as (_ & Hq1 & _).
    split; [done|]. rewrite Hq. unfold appended. cbn. rewrite app_nil_r, <- Hq1.
    apply sorted_cons_head; [apply Hlo1|].
    intros d' Hd'. destruct (queue (locals m')) as [|c cs]; [discriminate|].
    injection Hd' as <-. by apply Hhd.
  - destruct (Hone _ _ _ _ _ _ Hq Hb Hlo) as [Hlo1 Hhd].
    destruct (pass_spec _ _ _ _ _ _ Hq Hb) as (_ & Hq1 & _).
    split; [done|]. rewrite Hq. unfold appended. cbn. rewrite app_nil_r, <- Hq1.
    apply sorted_cons_head; [apply Hlo1|].
    intros d' Hd'. destruct (queue (locals m')) as [|c cs]; [discriminate|].
    injection Hd' as <-. by apply Hhd.
  - destruct (Hone _ _ _ _ _ _ Hq Hb Hlo) as [Hlo1 Hhd].
    destruct (IH Hlo1) as [Hlo' Hsorted].
    destruct (pass_spec _ _ _ _ _ _ Hq Hb) as (_ & Hq1 & _).
    split; [done|]. rewrite Hq, appended_cons. cbn.
    rewrite app_assoc, <- Hq1.
    apply sorted_cons_head; [done|].
    intros d' Hd'. destruct (queue (locals m1)) as [|c cs] eqn:Hm1.
    + exfalso. inversion Hrun; subst;
        match goal with
        | H : loop_guard _ _ = true |- _ =>
            apply loop_guard_iff in H as (_ & Hne & _); by rewrite Hm1 in Hne
        | _ => idtac
        end.
      cbn in Hd'. discriminate.
    + cbn in Hd'. injection Hd' as <-. by apply Hhd.
Qed.

(** X9. The crawl is breadth-first. The frontier of a fresh crawl is in
    level order, the loop keeps it so, and from a frontier in level order the
    entries are dequeued in order of depth, never a deeper one before a
    shallower one; the entries left in the queue are at least as deep as all
    that were dequeued. *)
Theorem breadth_first_order (max_pages : Z) (fuel : nat) (m m' : machine)
    (x : loop_exit) (trace : list label) :
  level_order (queue (locals m)) ->
  crawl_loop max_pages fuel m = Some (m', x, trace) ->
  StronglySorted Z.le (map snd (dequeued trace ++ queue (locals m'))) /\
  level_order (queue (locals m')) /\
  (forall w w1 st, fresh_state w = (w1, Returns st) -> level_order (queue st)).
Proof.
  intros Hlo Hloop. apply crawl_loop_run in Hloop.
  destruct (run_level_order _ _ _ _ _ Hloop Hlo) as [Hlo' Hsorted].
  split; [by rewrite <- (run_fifo _ _ _ _ _ Hloop)|]. split; [done|].
  intros w w1 st Hfresh. apply fresh_state_spec in Hfresh as (links & _ & ->). cbn.
  generalize (iter_order links). intros seeds. split.
  - induction seeds as [|u seeds IH]; cbn; constructor; [done|].
    apply Forall_forall. intros d Hd. apply list_elem_of_fmap in Hd as (c & -> & Hc).
    apply list_elem_of_fmap in Hc as (v & -> & _). done.
  - intros e He. assert (snd e = 1) as Hone.
    { destruct seeds as [|s seeds]; [discriminate|]. by injection He as <-. }
    apply Forall_forall. intros c Hc.
    apply list_elem_of_fmap in Hc as (v & -> & _). cbn. lia.
Qed.

(** *** Counting *)

(** X10. [crawled_pages] counts the visited URLs: where the two agree, as
    they do in a fresh state, the loop keeps them in agreement, and over any
    run of the loop the pages saved are at most the pages crawled in that
    run. *)
Theorem crawled_counts_visited (max_pages : Z) (fuel : nat) (m m' : machine)
    (x : loop_exit) (trace : list label) :
  crawled_pages (locals m) = Z.of_nat (size (visited (locals m))) ->
  crawl_loop max_pages fuel m = Some (m', x, trace) ->
  crawled_pages (locals m') = Z.of_nat (size (visited (locals m'))) /\
  page_count (locals m') - page_count (locals m)
    <= crawled_pages (locals m') - crawled_pages (locals m) /\
  (forall w w1 st,
      fresh_state w = (w1, Returns st) ->
      crawled_pages st = Z.of_nat (size (visited st))).
Proof.
  intros Hsize Hloop. apply crawl_loop_run in Hloop.
  destruct (run_visited _ _ _ _ _ Hloop) as (Hnd & Hfresh & Hvis & Hcr).
  split; [|split].
  - rewrite Hcr, Hvis, Hsize, size_union.
    + rewrite size_list_to_set by done. lia.
    + intros u Hu Hv. apply elem_of_list_to_set in Hu. by apply (Hfresh u).
  - clear Hsize Hnd Hfresh Hvis Hcr.
    induction Hloop as [m Hg|m e q m' l Hg Hq Hb|m e q m' l Hg Hq Hb
                        |m e q m1 l trace m' x Hg Hq Hb Hrun IH].
    + lia.
    + destruct (pass_spec _ _ _ _ _ _ Hq Hb) as (_ & _ & [(_ & -> & _)|Hp]); [cbn; lia|].
      destruct Hp as (_ & _ & _ & _ & Hcr & Hpc & _). lia.
    + destruct (pass_spec _ _ _ _ _ _ Hq Hb) as (_ & _ & [(_ & -> & _)|Hp]); [cbn; lia|].
      destruct Hp as (_ & _ & _ & _ & Hcr & Hpc & _). lia.
    + assert (page_count (locals m1) - page_count (locals m)
              <= crawled_pages (locals m1) - crawled_pages (locals m)); [|lia].
      destruct (pass_spec _ _ _ _ _ _ Hq Hb) as (_ & _ & [(_ & -> & _)|Hp]); [cbn; lia|].
      destruct Hp as (_ & _ & _ & _ & Hcr & Hpc & _). lia.
  - intros w w1 st Hst. apply fresh_state_spec in Hst as (links & _ & ->). cbn.
    by rewrite size_empty.
Qed.

(** *** What is fetched *)

Lemma loop_body_children (e : entry) (m m' : machine) (f : flow) (l : label) :
  loop_body e m = (m', f, l) ->
  forall c, c ∈ enqueued l ->
    exists w1 w2 links,
      get_internal_links w1 (fst e) url = (w2, Returns links) /\ fst c ∈ iter_order links.
Proof.
  intros Hb c Hc.
  destruct (decide (fst e ∈ visited (locals m) \/ max_depth < snd e)) as [Hdis|Hproc].
  { rewrite (loop_body_discard _ _ Hdis) in Hb. injection Hb as _ _ <-.
    by apply not_elem_of_nil in Hc. }
  assert (fst e ∉ visited (locals m)) as Hnv by tauto.
  assert (snd e <= max_depth) as Hd by lia.
  rewrite (loop_body_process _ _ Hnv Hd) in Hb. cbn zeta in Hb.
  destruct (extract_nepali_text_from_url (world m) (fst e)) as [w1 [t|]].
  2:{ injection Hb as _ _ <-. by apply not_elem_of_nil in Hc. }
  destruct (save_page w1 t _ (files m)) as [[st2 fs2]|].
  2:{ injection Hb as _ _ <-. by apply not_elem_of_nil in Hc. }
  destruct (snd e <? max_depth).
  2:{ injection Hb as _ _ <-. by apply not_elem_of_nil in Hc. }
  destruct (get_internal_links w1 (fst e) url) as [w2 [links|]] eqn:Hlinks.
  2:{ injection Hb as _ _ <-. by apply not_elem_of_nil in Hc. }
  injection Hb as _ _ <-. cbn in Hc. unfold new_entries in Hc.
  apply list_elem_of_fmap in Hc as (u & -> & Hu).
  apply list_elem_of_filter in Hu as [_ Hu]. exists w1, w2, links. by split.
Qed.

Lemma run_in_scope (max_pages : Z) (m m' : machine) (x : loop_exit) (trace : list label) :
  (forall s u, u ∈ iter_order s -> u ∈ s) ->
  run_of max_pages m trace m' x ->
  Forall (fun e => in_scope (fst e)) (queue (locals m)) ->
  Forall (fun e => in_scope (fst e)) (queue (locals m')) /\
  Forall (fun e => in_scope (fst e)) (appended trace).
Proof.
  intros Hiter.
  assert (Hone : forall m e q m1 f l,
    queue (locals m) = e :: q -> loop_body e (set_queue q m) = (m1, f, l) ->
    Forall (fun e => in_scope (fst e)) (queue (locals m)) ->
    Forall (fun e => in_scope (fst e)) (queue (locals m1)) /\
    Forall (fun e => in_scope (fst e)) (enqueued l)).
  { intros m0 e q m1 f l Hq Hb Hall. rewrite Hq in Hall. apply Forall_cons in Hall as [_ Hall].
    assert (Forall (fun e => in_scope (fst e)) (enqueued l)) as Hch.
    { apply Forall_forall. intros c Hc.
      destruct (loop_body_children _ _ _ _ _ Hb c Hc) as (w1 & w2 & links & Hl & Hin).
      apply Hiter in Hin.
      by destruct (get_internal_links_in_scope _ _ _ _ _ _ Hl Hin). }
    destruct (pass_spec _ _ _ _ _ _ Hq Hb) as (_ & -> & _).
    split; [|done]. apply Forall_app. by split. }
  induction 1 as [m Hg|m e q m' l Hg Hq Hb|m e q m' l Hg Hq Hb
                  |m e q m1 l trace m' x Hg Hq Hb Hrun IH]; intros Hall.
  - split; [done|constructor].
  - destruct (Hone _ _ _ _ _ _ Hq Hb Hall) as [H1 H2]. split; [done|].
    unfold appended. cbn. by rewrite app_nil_r.
  - destruct (Hone _ _ _ _ _ _ Hq Hb Hall) as [H1 H2]. split; [done|].
    unfold appended. cbn. by rewrite app_nil_r.
  - destruct (Hone _ _ _ _ _ _ Hq Hb Hall) as [H1 H2].
    destruct (IH H1) as [H3 H4]. split; [done|].
    rewrite appended_cons. apply Forall_app. by split.
Qed.

(** X11. A fresh crawl processes pages in scope only: every URL it dequeues
    and processes, which are the URLs whose text it asks for and whose links
    it follows, and every URL it leaves in the frontier or in the visited
    set, lies on the target domain and matches a pattern. The start URL
    itself is requested once, before the loop, for its links; it need not be
    in scope and is not among these URLs unless a page links to it. (The
    walk over a set of links is taken to yield only members of the set.) *)
Theorem only_in_scope_processed (max_pages : Z) (fuel : nat) (w : W) (fs : disk)
    (m : machine) (x : loop_exit) (trace : list label) :
  (forall s u, u ∈ iter_order s -> u ∈ s) ->
  create_nepali_corpus max_pages false fuel w fs = Some (Finished m x trace) ->
  Forall in_scope (processed trace) /\
  Forall (fun e => in_scope (fst e)) (queue (locals m)) /\
  (forall u, u ∈ visited (locals m) -> in_scope u).
Proof.
  intros Hiter Hrun.
  apply create_finished in Hrun as (st0 & w0 & m0 & Hinit & Hrun & ->).
  apply initial_state_fresh_inv in Hinit. unfold fresh_state, collect_initial_links in Hinit.
  destruct (get_internal_links w url url) as [w1 [links|]] eqn:Hlinks; [|discriminate].
  injection Hinit as <- <-.
  assert (Forall (fun e => in_scope (fst e))
                 (map (fun link : pystr => (link, 1)) (iter_order links))) as Hseeds.
  { apply Forall_forall. intros c Hc. apply list_elem_of_fmap in Hc as (u & -> & Hu).
    apply Hiter in Hu. by destruct (get_internal_links_in_scope _ _ _ _ _ _ Hlinks Hu). }
  destruct (run_in_scope _ _ _ _ _ Hiter Hrun Hseeds) as [Hq Happ].
  pose proof (run_fifo _ _ _ _ _ Hrun) as Hfifo. cbn in Hfifo.
  assert (Forall (fun e => in_scope (fst e)) (dequeued trace ++ queue (locals m0))) as Hdq.
  { rewrite <- Hfifo. apply Forall_app. by split. }
  apply Forall_app in Hdq as [Hdq _].
  assert (Forall in_scope (processed trace)) as Hproc.
  { apply Forall_forall. intros u Hu.
    pose proof (elem_of_sublist _ _ _ Hu (processed_sublist trace)) as Hin.
    apply list_elem_of_fmap in Hin as (e & -> & He).
    rewrite Forall_forall in Hdq. by apply Hdq. }
  split; [done|]. split; [done|]. intros u Hu.
  destruct (run_visited _ _ _ _ _ Hrun) as (_ & _ & Hvis & _). cbn in Hvis, Hu.
  rewrite Hvis in Hu. apply elem_of_union in Hu as [Hu|Hu].
  - apply elem_of_list_to_set in Hu. rewrite Forall_forall in Hproc. by apply Hproc.
  - by apply not_elem_of_empty in Hu.
Qed.

(** X12. When the start page cannot be fetched, a fresh crawl ends at once:
    the frontier is empty, no page is processed and no text file is touched.
    The one write attempted is that of the [finally] clause, with the empty
    state: the state file holds it when the write succeeds, is left as it
    was when the file cannot be opened, and cannot be loaded when the dump is
    cut short. *)
Theorem unreachable_start_page (max_pages : Z) (fuel : nat) (w w1 : W) (fs : disk) :
  (forall s u, u ∈ iter_order s -> u ∈ s) ->
  http_hrefs w url = (w1, Exception) ->
  exists fs',
    create_nepali_corpus max_pages false (S fuel) w fs
    = Some (Finished (Machine (CrawlState [] ∅ 0 0) w1 fs') GuardFalse []) /\
    text_files fs' = text_files fs /\
    match write_file w1 fs state_file with
    | Written => state_files fs' = <[state_file := Pickled (CrawlState [] ∅ 0 0)]> (state_files fs)
    | Refused => state_files fs' = state_files fs
    | Cut _ => state_files fs' = <[state_file := Corrupt]> (state_files fs)
    end.
Proof.
  intros Hiter Hhttp.
  assert (iter_order ∅ = []) as Hnone.
  { destruct (iter_order ∅) as [|u us] eqn:Hio; [done|].
    assert (u ∈ (∅ : gset pystr)) as Hu by (apply Hiter; rewrite Hio; by left).
    by apply not_elem_of_empty in Hu. }
  exists (save_state w1 state_file (CrawlState [] ∅ 0 0) fs). split; [|split].
  - unfold create_nepali_corpus, initial_state, fresh_state, collect_initial_links,
      get_internal_links. cbn. rewrite Hhttp, Hnone. cbn.
    unfold loop_guard. cbn. rewrite andb_false_r. reflexivity.
  - apply put_state_text_files.
  - unfold save_state. by destruct (write_file w1 fs state_file).
Qed.

(** X13. Entries beyond the depth limit cost nothing: when every entry of the
    frontier is deeper than [max_depth], as every seed is when
    [max_depth < 1], the loop only drops entries; it sends no request,
    processes no page, writes no file and changes neither the visited set
    nor a counter. *)
Theorem too_deep_never_fetched (max_pages : Z) (fuel : nat) (m m' : machine)
    (x : loop_exit) (trace : list label) :
  Forall (fun e => max_depth < snd e) (queue (locals m)) ->
  crawl_loop max_pages fuel m = Some (m', x, trace) ->
  processed trace = [] /\ x = GuardFalse /\
  world m' = world m /\ files m' = files m /\
  visited (locals m') = visited (locals m) /\
  page_count (locals m') = page_count (locals m) /\
  crawled_pages (locals m') = crawled_pages (locals m) /\
  queue (locals m) = dequeued trace ++ queue (locals m').
Proof.
  intros Hdeep Hloop. apply crawl_loop_run in Hloop.
  induction Hloop as [m Hg|m e q m' l Hg Hq Hb|m e q m' l Hg Hq Hb
                      |m e q m1 l trace m' x Hg Hq Hb Hrun IH].
  - by repeat split.
  - rewrite Hq in Hdeep. apply Forall_cons in Hdeep as [He _].
    rewrite loop_body_discard in Hb by (by right). discriminate.
  - rewrite Hq in Hdeep. apply Forall_cons in Hdeep as [He _].
    rewrite loop_body_discard in Hb by (by right). discriminate.
  - rewrite Hq in Hdeep. apply Forall_cons in Hdeep as [He Hdeep].
    rewrite loop_body_discard in Hb by (by right). injection Hb as <- <-.
    destruct (IH Hdeep) as (Hp & Hx & Hw & Hf & Hv & Hpc & Hcr & Hqueue).
    rewrite processed_cons, Hp, Hq. cbn in *. rewrite Hqueue. by repeat split.
Qed.

(** *** Interrupts and the periodic checkpoint *)

(** Where the interrupt of a pass comes from. *)
Lemma loop_body_interrupt (e : entry) (m m' : machine) (l : label) :
  loop_body e m = (m', Interrupt, l) ->
  l = Processed e [] /\ fst e ∈ visited (locals m') /\
  ((exists w1, extract_nepali_text_from_url (world m) (fst e) = (w1, Escapes)) \/
   (exists w1 w2 t,
       extract_nepali_text_from_url (world m) (fst e) = (w1, Returns t) /\
       get_internal_links w1 (fst e) url = (w2, Escapes))).
Proof.
  intros Hb. pose proof Hb as Hspec.
  apply loop_body_spec in Hspec as [(_ & _ & Hf & _)|Hp]; [discriminate|].
  destruct Hp as (children & -> & Hnv & Hd & Hvis & _ & _ & _ & _ & Hne).
  assert (children = []) as ->.
  { destruct children as [|c cs]; [done|]. destruct Hne as [_ Hf]; [done|discriminate]. }
  split; [done|]. split; [rewrite Hvis; set_solver|].
  rewrite (loop_body_process _ _ Hnv Hd) in Hb. cbn zeta in Hb.
  destruct (extract_nepali_text_from_url (world m) (fst e)) as [w1 [t|]]; [|left; eauto].
  right. exists w1. destruct (save_page w1 t _ (files m)) as [[st2 fs2]|]; [|discriminate].
  destruct (snd e <? max_depth); [|discriminate].
  destruct (get_internal_links w1 (fst e) url) as [w2 [links|]]; [discriminate|]. eauto.
Qed.

(** X14. A keyboard interrupt that escapes [extract_nepali_text_from_url] or
    [get_internal_links] loses the page in progress. The loop is left by an
    interrupt only in its last pass and only out of one of these two calls;
    the entry popped in that pass has then been marked visited and counted as
    crawled, none of its links has been enqueued, and in any state that has
    this visited set, as a crawl resumed from a checkpoint of it has, a
    dequeue of its URL is dropped. *)
Theorem interrupt_skips_page (max_pages : Z) (fuel : nat) (m m' : machine) (trace : list label) :
  crawl_loop max_pages fuel m = Some (m', Interrupted, trace) ->
  exists trace0 e q m1,
    trace = trace0 ++ [Processed e []] /\
    queue (locals m1) = e :: q /\
    loop_body e (set_queue q m1) = (m', Interrupt, Processed e []) /\
    ((exists w1, extract_nepali_text_from_url (world m1) (fst e) = (w1, Escapes)) \/
     (exists w1 w2 t,
         extract_nepali_text_from_url (world m1) (fst e) = (w1, Returns t) /\
         get_internal_links w1 (fst e) url = (w2, Escapes))) /\
    fst e ∈ visited (locals m') /\
    queue (locals m') = q /\
    forall d mr, visited (locals mr) = visited (locals m') ->
                 loop_body (fst e, d) mr = (mr, Next, Discarded (fst e, d)).
Proof.
  intros Hloop. apply crawl_loop_run in Hloop.
  remember Interrupted as x eqn:Hx.
  induction Hloop as [m Hg|m e q m' l Hg Hq Hb|m e q m' l Hg Hq Hb
                      |m e q m1 l trace m' x Hg Hq Hb Hrun IH].
  - discriminate.
  - destruct (pass_spec _ _ _ _ _ _ Hq Hb) as (_ & Hq' & _).
    pose proof Hb as Hb'.
    apply loop_body_interrupt in Hb' as (-> & Hin & Hwhy). exists [], e, q, m.
    cbn in Hq'. rewrite app_nil_r in Hq'.
    split; [done|]. split; [done|]. split; [done|]. split; [done|]. split; [done|].
    split; [done|]. intros d mr Hmr. apply loop_body_discard.
    left. cbn. by rewrite Hmr.
  - discriminate.
  - destruct (IH Hx) as (trace0 & e' & q' & m0 & -> & Hrest).
    exists (l :: trace0), e', q', m0. by split.
Qed.

Lemma loop_body_after_save (e : entry) (m m' : machine) (f : flow) (l : label)
    (w1 : W) (t : option pystr) (st2 : crawl_state) (fs2 : disk) :
  fst e ∉ visited (locals m) -> snd e <= max_depth ->
  extract_nepali_text_from_url (world m) (fst e) = (w1, Returns t) ->
  save_page w1 t (marked e m) (files m) = Some (st2, fs2) ->
  loop_body e m = (m', f, l) ->
  files m' = fs2 /\
  locals m' = CrawlState (queue st2 ++ enqueued l) (visited st2)
                         (page_count st2) (crawled_pages st2).
Proof.
  intros Hnv Hd Hex Hsave. rewrite (loop_body_process _ _ Hnv Hd). cbn zeta. rewrite Hex.
  fold (marked e m). rewrite Hsave.
  destruct (snd e <? max_depth).
  - destruct (get_internal_links w1 (fst e) url) as [w2 [links|]];
      intros [= <- <- <-]; cbn; rewrite ?app_nil_r; by destruct st2.
  - intros [= <- <- <-]. cbn. rewrite app_nil_r. by destruct st2.
Qed.

(** X15. The periodic checkpoint is taken before the links of the page are
    collected: in a pass that saves the page which makes [page_count] a
    multiple of [SAVE_INTERVAL], the state handed to [save_state] is the
    state in memory at the end of the pass without the entries that pass
    enqueued. When that write succeeds this is the state on disk; until the
    next checkpoint the entries exist in memory only. *)
Theorem periodic_checkpoint_before_links (e : entry) (m m' : machine) (f : flow) (l : label)
    (w1 : W) (t : option pystr) :
  fst e ∉ visited (locals m) ->
  snd e <= max_depth ->
  extract_nepali_text_from_url (world m) (fst e) = (w1, Returns t) ->
  accepts t = true ->
  (page_count (locals m) + 1) `mod` SAVE_INTERVAL = 0 ->
  makedirs w1 folder_path = true ->
  loop_body e m = (m', f, l) ->
  exists st fs1,
    files m' = save_state w1 state_file st fs1 /\
    state_files fs1 = state_files (files m) /\
    queue (locals m') = queue st ++ enqueued l /\
    visited (locals m') = visited st /\
    page_count (locals m') = page_count st /\
    crawled_pages (locals m') = crawled_pages st /\
    (write_file w1 fs1 state_file = Written ->
     state_files (files m') !! state_file = Some (Pickled st)).
Proof.
  intros Hnv Hd Hex Hacc Hmod Hmk Hb.
  destruct (save_page_spec w1 t (marked e m) (files m)) as [(Hno & _)|(text & -> & _ & Hs)];
    [congruence|].
  rewrite Hmk in Hs. cbn zeta in Hs. cbn [marked page_count] in Hs.
  rewrite (proj2 (Z.eqb_eq _ _) Hmod) in Hs.
  destruct (loop_body_after_save _ _ _ _ _ _ _ _ _ Hnv Hd Hex Hs Hb) as (Hfiles & Hlocals).
  eexists _, _. split; [exact Hfiles|]. split; [apply put_text_state_files|].
  rewrite Hlocals. cbn. repeat split; try done.
  intros Hw. rewrite Hfiles, Hw. cbn. by rewrite lookup_insert_eq.
Qed.

(** *** What a run leaves alone *)


Lemma pass_state_files (e : entry) (m m' : machine) (f : flow) (l : label) :
  loop_body e m = (m', f, l) ->
  state_files (files m') = state_files (files m) \/
  (page_count (locals m') = page_count (locals m) + 1 /\
   page_count (locals m') `mod` SAVE_INTERVAL = 0).
Proof.
  intros Hb. destruct (loop_body_files _ _ _ _ _ Hb) as [->|(w1 & t & st2 & Hex & Hsave)];
    [by left|].
  destruct (decide (fst e ∈ visited (locals m) \/ max_depth < snd e)) as [Hdis|Hproc].
  { rewrite (loop_body_discard _ _ Hdis) in Hb. injection Hb as <- _ _. by left. }
  assert (fst e ∉ visited (locals m)) as Hnv by tauto.
  assert (snd e <= max_depth) as Hd by lia.
  destruct (loop_body_saves _ _ _ _ _ _ _ Hnv Hd Hex Hb)
    as [(st2' & Hsave' & Hpc & _)|(Hnone & _)]; [|congruence].
  assert (st2' = st2) as -> by congruence.
  pose proof (save_page_locals _ _ _ _ _ _ Hsave) as (_ & _ & _ & Hpc2).
  apply save_page_state_files in Hsave as [(_ & Hsame)|(Hacc & Hmod & _)]; [by left|].
  right. rewrite Hacc in Hpc2. cbn in Hpc2, Hmod. rewrite Hpc, Hpc2. done.
Qed.

(** X19. Inside the loop the state file is written at the interval points
    only: a run of the loop during which [page_count] passes no multiple of
    [SAVE_INTERVAL] leaves every state file as it finds it, so what such a
    run did is on disk only once the loop is left. *)
Theorem checkpoint_only_at_interval (max_pages : Z) (fuel : nat) (m m' : machine)
    (x : loop_exit) (trace : list label) :
  (forall k, page_count (locals m) < k <= page_count (locals m') ->
             k `mod` SAVE_INTERVAL <> 0) ->
  crawl_loop max_pages fuel m = Some (m', x, trace) ->
  state_files (files m') = state_files (files m).
Proof.
  intros Hno Hloop. apply crawl_loop_run in Hloop. revert Hno.
  induction Hloop as [m Hg|m e q m' l Hg Hq Hb|m e q m' l Hg Hq Hb
                      |m e q m1 l trace m' x Hg Hq Hb Hrun IH];
    intros Hno.
  - done.
  - destruct (pass_state_files _ _ _ _ _ Hb) as [Hsame|[Hpc Hmod]]; [done|].
    cbn in Hpc. exfalso. apply (Hno (page_count (locals m'))); [lia|done].
  - destruct (pass_state_files _ _ _ _ _ Hb) as [Hsame|[Hpc Hmod]]; [done|].
    cbn in Hpc. exfalso. apply (Hno (page_count (locals m'))); [lia|done].
  - destruct (run_files _ _ _ _ _ Hrun) as (Hle & _).
    destruct (pass_files _ _ _ _ _ Hb) as [[_ Hpc1]|(res & text & _ & Hpc1)]; cbn in Hpc1.
    + rewrite IH.
      * destruct (pass_state_files _ _ _ _ _ Hb) as [Hsame|[Hpc _]]; [done|]. cbn in Hpc. lia.
      * intros k Hk. apply Hno. lia.
    + rewrite IH.
      * destruct (pass_state_files _ _ _ _ _ Hb) as [Hsame|[_ Hmod]]; [done|].
        exfalso. apply (Hno (page_count (locals m1))); [lia|done].
      * intros k Hk. apply Hno. lia.
Qed.

End Crawler.

(** ** A small site, for concrete runs

    The start page links to three pages; the first two in the order of the
    walk hold two lines of Devanagari text, the third cannot be fetched. *)

Module Toy.

Definition seed : pystr := py "s".
Definition page_a : pystr := py "a".
Definition page_b : pystr := py "b".
Definition page_c : pystr := py "c".
Definition page_d : pystr := py "d".

Definition two_lines : pystr := [2325; 10; 2326].

Definition hrefs (w : unit) (u : pystr) : unit * outcome (list pystr) :=
  if bool_decide (u = seed) then (w, Ok [page_a; page_b; page_c])
  else if bool_decide (u = page_c) then (w, Ok [page_d])
  else (w, Ok []).

Definition paragraphs (w : unit) (u : pystr) : unit * outcome (list pystr) :=
  if bool_decide (u = page_a) then (w, Exception) else (w, Ok [two_lines]).

Definition detect (w : unit) (text : pystr) : unit * outcome pystr := (w, Ok (py "ne")).
Definition urljoin (base href : pystr) : option pystr := Some href.
Definition netloc (u : pystr) : option pystr := Some TARGET_DOMAIN.
Definition re_search (pattern u : pystr) : bool := true.
Definition iter_order (s : gset pystr) : list pystr := elements s.
Definition shutdown_flag (w : unit) : bool := false.
(** The folder can be made and every write succeeds. *)
Definition makedirs (w : unit) (folder : pystr) : bool := true.
Definition write_file (w : unit) (fs : disk) (path : pystr) : write_result := Written.

Definition out : pystr := py "out".
Definition state_path : pystr := py "st".
Definition no_files : disk := Disk ∅ ∅.

Definition body (max_depth : Z) : entry -> machine -> machine * flow * label :=
  loop_body paragraphs hrefs detect urljoin netloc re_search iter_order
            makedirs write_file seed out state_path max_depth.

Definition loop (max_depth max_pages : Z) : nat -> machine -> option (machine * loop_exit * list label) :=
  crawl_loop paragraphs hrefs detect urljoin netloc re_search iter_order shutdown_flag
             makedirs write_file seed out state_path max_depth max_pages.

Definition crawl (max_depth max_pages : Z) (resume : bool) (fuel : nat) (fs : disk)
  : option (@run unit) :=
  create_nepali_corpus paragraphs hrefs detect urljoin netloc re_search iter_order shutdown_flag
                       makedirs write_file seed out state_path max_depth max_pages
                       resume fuel tt fs.

Definition seeded : crawl_state :=
  CrawlState [(page_c, 1); (page_b, 1); (page_a, 1)] ∅ 0 0.

Definition start : machine := Machine seeded tt no_files.

Definition two_pages : gmap pystr pystr :=
  <[py "out/page_2.txt" := two_lines]> (<[py "out/page_1.txt" := two_lines]> ∅).

Definition after_two : crawl_state :=
  CrawlState [(page_a, 1); (page_d, 2)] {[page_b; page_c]} 2 2.

Definition trace_two : list label :=
  [Processed (page_c, 1) [(page_d, 2)]; Processed (page_b, 1) []].

(** The same site when a keyboard interrupt cuts the fetch of the second
    page short. *)
Definition paragraphs_cut (w : unit) (u : pystr) : unit * outcome (list pystr) :=
  if bool_decide (u = page_b) then (w, KeyboardInterrupt) else paragraphs w u.

Definition crawl_cut (max_depth max_pages : Z) (resume : bool) (fuel : nat) (fs : disk)
  : option (@run unit) :=
  create_nepali_corpus paragraphs_cut hrefs detect urljoin netloc re_search iter_order
                       shutdown_flag makedirs write_file seed out state_path max_depth
                       max_pages resume fuel tt fs.

Definition when_cut : crawl_state :=
  CrawlState [(page_a, 1); (page_d, 2)] {[page_b; page_c]} 1 2.

(** The same site after a termination signal. *)
Definition stop_requested (w : unit) : bool := true.

Definition crawl_stopped (max_depth max_pages : Z) (resume : bool) (fuel : nat) (fs : disk)
  : option (@run unit) :=
  create_nepali_corpus paragraphs hrefs detect urljoin netloc re_search iter_order
                       stop_requested makedirs write_file seed out state_path max_depth
                       max_pages resume fuel tt fs.

(** A checkpoint as the resume scenario of the specification has it. *)
Definition checkpoint : crawl_state :=
  CrawlState [(page_a, 2); (page_b, 2)] {[seed]} 5 7.

Definition with_checkpoint : disk := Disk ∅ {[state_path := Pickled checkpoint]}.

(** One page short of the periodic checkpoint. *)
Definition at_99 : machine :=
  Machine (CrawlState [(page_b, 1)] ∅ 99 120) tt no_files.

(** State files that cannot be used: bytes that do not unpickle, a pickled
    [None], a pickled list. *)
Definition corrupt_disk : disk := Disk ∅ {[state_path := Corrupt]}.
Definition none_disk : disk := Disk ∅ {[state_path := FalseValue]}.
Definition list_disk : disk := Disk ∅ {[state_path := Misshapen]}.

(** The same site on a disk that takes no write: every [open] raises. *)
Definition write_refused (w : unit) (fs : disk) (path : pystr) : write_result := Refused.

Definition body_refused (max_depth : Z) : entry -> machine -> machine * flow * label :=
  loop_body paragraphs hrefs detect urljoin netloc re_search iter_order
            makedirs write_refused seed out state_path max_depth.

Definition crawl_refused (max_depth max_pages : Z) (resume : bool) (fuel : nat) (fs : disk)
  : option (@run unit) :=
  create_nepali_corpus paragraphs hrefs detect urljoin netloc re_search iter_order shutdown_flag
                       makedirs write_refused seed out state_path max_depth max_pages
                       resume fuel tt fs.

(** The first pass on that disk: the page is counted, the disk is empty. *)
Definition counted_unsaved : machine :=
  Machine (CrawlState [(page_c, 1); (page_b, 1); (page_a, 1); (page_d, 2)] {[page_c]} 1 1)
          tt no_files.

(** The same site where the output folder cannot be made. *)
Definition makedirs_fails (w : unit) (folder : pystr) : bool := false.

Definition crawl_no_folder (max_depth max_pages : Z) (resume : bool) (fuel : nat) (fs : disk)
  : option (@run unit) :=
  create_nepali_corpus paragraphs hrefs detect urljoin netloc re_search iter_order shutdown_flag
                       makedirs_fails write_file seed out state_path max_depth max_pages
                       resume fuel tt fs.


End Toy.

(** Witnesses: the claims at the run of the loop on the seeded frontier with
    a budget of two pages and two levels. The first two pages are saved; the
    third stays in the queue, behind the link found on the first. *)

Lemma visited_marks_once_witness :
  Toy.loop 2 2 10 Toy.start
  = Some (Machine Toy.after_two tt (Disk Toy.two_pages ∅), GuardFalse, Toy.trace_two) /\
  NoDup (processed Toy.trace_two).
Proof.
  assert (H : Toy.loop 2 2 10 Toy.start
              = Some (Machine Toy.after_two tt (Disk Toy.two_pages ∅), GuardFalse, Toy.trace_two))
    by (vm_compute; reflexivity).
  split; [exact H|]. eapply proj1, visited_marks_once. exact H.
Defined.

Lemma frontier_is_fifo_witness :
  Toy.loop 2 2 10 Toy.start
  = Some (Machine Toy.after_two tt (Disk Toy.two_pages ∅), GuardFalse, Toy.trace_two) /\
  queue Toy.seeded ++ appended Toy.trace_two = dequeued Toy.trace_two ++ queue Toy.after_two.
Proof.
  assert (H : Toy.loop 2 2 10 Toy.start
              = Some (Machine Toy.after_two tt (Disk Toy.two_pages ∅), GuardFalse, Toy.trace_two))
    by (vm_compute; reflexivity).
  split; [exact H|].
  exact (proj1 (frontier_is_fifo Toy.paragraphs Toy.hrefs Toy.detect Toy.urljoin Toy.netloc
                  Toy.re_search Toy.iter_order Toy.shutdown_flag Toy.makedirs Toy.write_file
                  Toy.seed Toy.out Toy.state_path 2 2 10 _ _ _ _ H)).
Defined.

Lemma budget_stops_crawl_witness :
  0 <= 2 /\
  Toy.crawl 2 2 false 10 Toy.no_files
  = Some (Finished (Machine Toy.after_two tt
                      (Disk Toy.two_pages {[Toy.state_path := Pickled Toy.after_two]}))
                   GuardFalse Toy.trace_two) /\
  page_count Toy.after_two = 2.
Proof.
  assert (H0 : 0 <= 2) by (vm_compute; discriminate).
  assert (H : Toy.crawl 2 2 false 10 Toy.no_files
              = Some (Finished (Machine Toy.after_two tt
                                  (Disk Toy.two_pages {[Toy.state_path := Pickled Toy.after_two]}))
                               GuardFalse Toy.trace_two))
    by (vm_compute; reflexivity).
  split; [exact H0|]. split; [exact H|].
  refine (proj2 (proj2 (proj2 (budget_stops_crawl Toy.paragraphs Toy.hrefs Toy.detect Toy.urljoin Toy.netloc
                  Toy.re_search Toy.iter_order Toy.shutdown_flag Toy.makedirs Toy.write_file
                  Toy.seed Toy.out Toy.state_path 2 2 H0))
                       10%nat tt Toy.no_files _ _ _ H) eq_refl _ eq_refl).
  discriminate.
Defined.

Lemma page_accepted_iff_multiline_witness :
  accepts (Some Toy.two_lines) = true /\
  exists m',
    Toy.body 2 (Toy.page_c, 1) Toy.start = (m', Next, Processed (Toy.page_c, 1) [(Toy.page_d, 2)]) /\
    text_files (files m') = <[py "out/page_1.txt" := Toy.two_lines]> ∅ /\
    page_count (locals m') = 1.
Proof.
  split; [reflexivity|].
  destruct (Toy.body 2 (Toy.page_c, 1) Toy.start) as [[m' f] l] eqn:Hb.
  assert (Hfl : (f, l) = (Next, Processed (Toy.page_c, 1) [(Toy.page_d, 2)])).
  { vm_compute in Hb. by injection Hb as _ <- <-. }
  injection Hfl as -> ->. exists m'. split; [reflexivity|].
  assert (Hnv : fst (Toy.page_c, 1) ∉ visited (locals Toy.start)) by (vm_compute; set_solver).
  assert (Hd : snd (Toy.page_c, 1) <= 2) by (vm_compute; discriminate).
  assert (Hex : extract_nepali_text_from_url Toy.paragraphs Toy.detect
                  (world Toy.start) (fst (Toy.page_c, 1)) = (tt, Returns (Some Toy.two_lines)))
    by (vm_compute; reflexivity).
  destruct (page_accepted_iff_multiline Toy.paragraphs Toy.hrefs Toy.detect Toy.urljoin Toy.netloc
                  Toy.re_search Toy.iter_order Toy.shutdown_flag Toy.makedirs Toy.write_file
                  Toy.seed Toy.out Toy.state_path 2 _ _ _ _ _ _ _ Hnv Hd Hex Hb)
    as (_ & Hyes & _).
  destruct (Hyes eq_refl) as (text & Htext & _ & Hpc & Hfiles).
  injection Htext as <-. split; [exact Hfiles|exact Hpc].
Defined.

Lemma depth_assigned_at_enqueue_witness :
  1 <= 2 /\
  Toy.crawl 2 2 false 10 Toy.no_files
  = Some (Finished (Machine Toy.after_two tt
                      (Disk Toy.two_pages {[Toy.state_path := Pickled Toy.after_two]}))
                   GuardFalse Toy.trace_two) /\
  Forall (fun e => 1 <= snd e <= 2)
         (queue Toy.after_two ++ dequeued Toy.trace_two ++ appended Toy.trace_two).
Proof.
  assert (H1 : 1 <= 2) by (vm_compute; discriminate).
  assert (H : Toy.crawl 2 2 false 10 Toy.no_files
              = Some (Finished (Machine Toy.after_two tt
                                  (Disk Toy.two_pages {[Toy.state_path := Pickled Toy.after_two]}))
                               GuardFalse Toy.trace_two))
    by (vm_compute; reflexivity).
  split; [exact H1|]. split; [exact H|].
  exact (proj1 (depth_assigned_at_enqueue Toy.paragraphs Toy.hrefs Toy.detect Toy.urljoin Toy.netloc
                  Toy.re_search Toy.iter_order Toy.shutdown_flag Toy.makedirs Toy.write_file
                  Toy.seed Toy.out Toy.state_path 2 2 10 tt Toy.no_files _ _ _ H1 H)).
Defined.

Lemma saved_le_crawled_witness :
  page_count Toy.seeded <= crawled_pages Toy.seeded /\
  Toy.loop 2 2 10 Toy.start
  = Some (Machine Toy.after_two tt (Disk Toy.two_pages ∅), GuardFalse, Toy.trace_two) /\
  page_count Toy.after_two <= crawled_pages Toy.after_two.
Proof.
  assert (H0 : page_count (locals Toy.start) <= crawled_pages (locals Toy.start))
    by (vm_compute; discriminate).
  assert (H : Toy.loop 2 2 10 Toy.start
              = Some (Machine Toy.after_two tt (Disk Toy.two_pages ∅), GuardFalse, Toy.trace_two))
    by (vm_compute; reflexivity).
  split; [exact H0|]. split; [exact H|].
  exact (proj1 (saved_le_crawled Toy.paragraphs Toy.hrefs Toy.detect Toy.urljoin Toy.netloc
                  Toy.re_search Toy.iter_order Toy.shutdown_flag Toy.makedirs Toy.write_file
                  Toy.seed Toy.out Toy.state_path 2 2 10 _ _ _ _ H0 H)).
Defined.


Lemma saved_text_alphabet_witness :
  Toy.crawl 2 2 false 10 Toy.no_files
  = Some (Finished (Machine Toy.after_two tt
                      (Disk Toy.two_pages {[Toy.state_path := Pickled Toy.after_two]}))
                   GuardFalse Toy.trace_two) /\
  forall p text, Toy.two_pages !! p = Some text ->
                 (∅ : gmap pystr pystr) !! p = Some text \/ Forall allowed_char text.
Proof.
  assert (H : Toy.crawl 2 2 false 10 Toy.no_files
              = Some (Finished (Machine Toy.after_two tt
                                  (Disk Toy.two_pages {[Toy.state_path := Pickled Toy.after_two]}))
                               GuardFalse Toy.trace_two))
    by (vm_compute; reflexivity).
  split; [exact H|].
  exact (proj2 (proj2 (proj2 (saved_text_alphabet Toy.paragraphs Toy.hrefs Toy.detect Toy.urljoin Toy.netloc
                  Toy.re_search Toy.iter_order Toy.shutdown_flag Toy.makedirs Toy.write_file
                  Toy.seed Toy.out Toy.state_path 2 2 false 10
                                tt Toy.no_files _ _ _ H)))).
Defined.

(** The call cut short by a keyboard interrupt, on a disk that takes the
    write of the [finally] clause. *)
Lemma checkpoint_on_interval_and_exit_witness :
  Toy.crawl_cut 2 2 false 10 Toy.no_files
  = Some (Finished
            (Machine Toy.when_cut tt
               (Disk (<[py "out/page_1.txt" := Toy.two_lines]> ∅)
                     {[Toy.state_path := Pickled Toy.when_cut]}))
            Interrupted
            [Processed (Toy.page_c, 1) [(Toy.page_d, 2)]; Processed (Toy.page_b, 1) []]) /\
  ({[Toy.state_path := Pickled Toy.when_cut]} : gmap pystr pickle) !! Toy.state_path
  = Some (Pickled Toy.when_cut).
Proof.
  assert (H : Toy.crawl_cut 2 2 false 10 Toy.no_files
              = Some (Finished
                        (Machine Toy.when_cut tt
                           (Disk (<[py "out/page_1.txt" := Toy.two_lines]> ∅)
                                 {[Toy.state_path := Pickled Toy.when_cut]}))
                        Interrupted
                        [Processed (Toy.page_c, 1) [(Toy.page_d, 2)];
                         Processed (Toy.page_b, 1) []]))
    by (vm_compute; reflexivity).
  split; [exact H|].
  destruct (proj1 (proj2 (checkpoint_on_interval_and_exit Toy.paragraphs_cut Toy.hrefs Toy.detect Toy.urljoin Toy.netloc
                  Toy.re_search Toy.iter_order Toy.shutdown_flag Toy.makedirs Toy.write_file
                  Toy.seed Toy.out Toy.state_path 2 2))
                  false 10%nat tt Toy.no_files _ _ _ H)
    as (st0 & w0 & m0 & _ & _ & _ & Hdisk & _).
  exact Hdisk.
Defined.

(** ** Where the writes fail *)

(** On a disk that takes no write the first page of the small site is
    accepted and counted, and no file holds its text. *)
Lemma page_counted_without_file :
  accepts (Some Toy.two_lines) = true /\
  extract_nepali_text_from_url Toy.paragraphs Toy.detect tt Toy.page_c
  = (tt, Returns (Some Toy.two_lines)) /\
  Toy.body_refused 2 (Toy.page_c, 1) Toy.start
  = (Toy.counted_unsaved, Next, Processed (Toy.page_c, 1) [(Toy.page_d, 2)]) /\
  page_count (locals Toy.start) = 0 /\
  page_count (locals Toy.counted_unsaved) = 1 /\
  text_files (files Toy.counted_unsaved) !! py "out/page_1.txt" = None.
Proof. repeat split; vm_compute; reflexivity. Qed.

(** On that disk a crawl that reaches its budget ends without a state
    file. *)
Lemma exit_without_checkpoint :
  Toy.crawl_refused 2 2 false 10 Toy.no_files
  = Some (Finished (Machine Toy.after_two tt Toy.no_files) GuardFalse Toy.trace_two) /\
  state_files Toy.no_files !! Toy.state_path = None.
Proof. split; vm_compute; reflexivity. Qed.

(** ** The scenarios of the specification *)

(** Fresh crawl, tiny budget: three links, a budget of two pages; two files
    are saved and the third link is never fetched. *)
Example scenario_tiny_budget :
  Toy.crawl 2 2 false 10 Toy.no_files
  = Some (Finished (Machine Toy.after_two tt
                      (Disk Toy.two_pages {[Toy.state_path := Pickled Toy.after_two]}))
                   GuardFalse Toy.trace_two).
Proof. vm_compute. reflexivity. Qed.

(** Resume: the first entry dequeued is the head of the saved frontier and
    [page_count] goes on from the saved value. *)
Example scenario_resume :
  exists m trace,
    Toy.crawl 2 6 true 10 Toy.with_checkpoint
    = Some (Finished m GuardFalse (Processed (Toy.page_a, 2) [] :: trace)) /\
    page_count (locals m) = 6.
Proof. eexists _, _. split; vm_compute; reflexivity. Qed.

(** Resume from a state file that does not unpickle: the crawl is the fresh
    one, and its last write replaces the file. *)
Example scenario_corrupt_checkpoint :
  Toy.crawl 2 2 true 10 Toy.corrupt_disk
  = Some (Finished (Machine Toy.after_two tt
                      (Disk Toy.two_pages {[Toy.state_path := Pickled Toy.after_two]}))
                   GuardFalse Toy.trace_two).
Proof. vm_compute. reflexivity. Qed.

(** Resume from a pickled [None], and from a pickled list. *)
Example scenario_other_pickles :
  Toy.crawl 2 2 true 10 Toy.none_disk = Toy.crawl 2 2 true 10 Toy.corrupt_disk /\
  Toy.crawl 2 2 true 10 Toy.list_disk = Some (Aborted tt Toy.list_disk).
Proof. split; vm_compute; reflexivity. Qed.

(** A stop requested before the first pass: nothing is crawled and the
    seeded state is checkpointed. *)
Example scenario_stop_requested :
  Toy.crawl_stopped 2 2 false 10 Toy.no_files
  = Some (Finished (Machine Toy.seeded tt (Disk ∅ {[Toy.state_path := Pickled Toy.seeded]}))
                   GuardFalse []).
Proof. vm_compute. reflexivity. Qed.

(** The output folder cannot be made: the first accepted page ends the loop
    with the exception, uncounted; the [finally] clause still saves the
    state. *)
Example scenario_no_folder :
  Toy.crawl_no_folder 2 2 false 10 Toy.no_files
  = Some (Finished
            (Machine (CrawlState [(Toy.page_b, 1); (Toy.page_a, 1)] {[Toy.page_c]} 0 1) tt
               (Disk ∅ {[Toy.state_path :=
                           Pickled (CrawlState [(Toy.page_b, 1); (Toy.page_a, 1)]
                                               {[Toy.page_c]} 0 1)]}))
            Crashed [Processed (Toy.page_c, 1) []]).
Proof. vm_compute. reflexivity. Qed.

(** The hundredth accepted page triggers the periodic checkpoint, which
    holds the queue as the pop left it. *)
Example scenario_periodic_checkpoint :
  state_files (files (Toy.body 2 (Toy.page_c, 1) Toy.at_99).1.1) !! Toy.state_path
  = Some (Pickled (CrawlState [(Toy.page_b, 1)] {[Toy.page_c]} 100 121)).
Proof. vm_compute. reflexivity. Qed.

(** Malformed URL repair. *)
Example scenario_malformed_url :
  normalize_url (py "http:/example.com/a") = py "http://example.com/a" /\
  normalize_url (py "https:/example.com/a") = py "https://example.com/a" /\
  normalize_url (py "http://example.com/a") = py "http://example.com/a".
Proof. repeat split. Qed.

(** ** The shutdown handler *)

Definition shutdown_notice : pystr :=
  10 :: py "Shutdown signal received. Saving state and exiting gracefully...".
Definition please_wait : pystr :=
  10 :: py "Already shutting down. Please wait...".

(** [handle_shutdown(signum, frame)] on the global flag: the new value of the
    flag and what is printed. *)
Definition handle_shutdown (signum : Z) (shutdown_flag : bool) : bool * pystr :=
  if negb shutdown_flag then (true, shutdown_notice)
  else (shutdown_flag, please_wait).

(** The handler run once for each signal of a sequence. *)
Fixpoint deliver (signums : list Z) (shutdown_flag : bool) : bool * list pystr :=
  match signums with
  | [] => (shutdown_flag, [])
  | signum :: rest =>
      let '(flag1, printed) := handle_shutdown signum shutdown_flag in
      let '(flag2, more) := deliver rest flag1 in
      (flag2, printed :: more)
  end.

(** X16. The shutdown flag latches: no signal ever clears it, any signal
    sets it, and of a sequence of signals only the first to find the flag
    clear prints the shutdown notice; each of the others prints the request
    to wait and changes nothing. *)
Theorem shutdown_flag_latches (signums : list Z) (shutdown_flag : bool) :
  fst (deliver signums shutdown_flag)
  = shutdown_flag || negb (bool_decide (signums = [])) /\
  snd (deliver signums shutdown_flag)
  = (if shutdown_flag then [] else take 1 (map (fun _ => shutdown_notice) signums))
    ++ repeat please_wait (length signums - (if shutdown_flag then 0 else 1)).
Proof.
  assert (Hset : forall l, deliver l true = (true, repeat please_wait (length l))).
  { induction l as [|s l IH]; [done|]. cbn. by rewrite IH. }
  destruct signums as [|s rest]; [by destruct shutdown_flag|].
  destruct shutdown_flag.
  - rewrite Hset. cbn. done.
  - cbn. rewrite Hset. cbn. by rewrite Nat.sub_0_r.
Qed.

(** ** The entry point *)




Section Main.

Context {W : Type}.
Variable http_paragraphs : W -> pystr -> W * outcome (list pystr).
Variable http_hrefs : W -> pystr -> W * outcome (list pystr).
Variable detect : W -> pystr -> W * outcome pystr.
Variable urljoin : pystr -> pystr -> option pystr.
Variable netloc : pystr -> option pystr.
Variable re_search : pystr -> pystr -> bool.
Variable iter_order : gset pystr -> list pystr.
Variable shutdown_flag : W -> bool.
Variable makedirs : W -> pystr -> bool.
Variable write_file : W -> disk -> pystr -> write_result.



End Main.
(** ** More of the small site, and the witnesses of the further properties *)

Module ToyMore.

(** A page of two paragraphs of one line each. *)
Definition flat : list pystr := [[2325; 2326]; [2327]].
Definition paragraphs_flat (w : unit) (u : pystr) : unit * outcome (list pystr) :=
  (w, Ok flat).

(** The site when it is down. *)
Definition hrefs_down (w : unit) (u : pystr) : unit * outcome (list pystr) :=
  (w, Exception).

Definition crawl_down (max_depth max_pages : Z) (fuel : nat) (fs : disk) : option (@run unit) :=
  create_nepali_corpus Toy.paragraphs hrefs_down Toy.detect Toy.urljoin Toy.netloc
                       Toy.re_search Toy.iter_order Toy.shutdown_flag Toy.makedirs
                       Toy.write_file Toy.seed Toy.out Toy.state_path max_depth max_pages
                       false fuel tt fs.

Definition loop_cut (max_depth max_pages : Z)
  : nat -> machine -> option (machine * loop_exit * list label) :=
  crawl_loop Toy.paragraphs_cut Toy.hrefs Toy.detect Toy.urljoin Toy.netloc Toy.re_search
             Toy.iter_order Toy.shutdown_flag Toy.makedirs Toy.write_file
             Toy.seed Toy.out Toy.state_path max_depth max_pages.

Definition finished_two : machine :=
  Machine Toy.after_two tt (Disk Toy.two_pages {[Toy.state_path := Pickled Toy.after_two]}).

Definition drained : machine := Machine (CrawlState [] ∅ 0 0) tt Toy.no_files.

Definition dropped : list label :=
  [Discarded (Toy.page_c, 1); Discarded (Toy.page_b, 1); Discarded (Toy.page_a, 1)].






End ToyMore.

Lemma single_line_page_rejected_witness :
  Forall (fun p => no_break (strip p)) ToyMore.flat /\
  exists w2 t,
    extract_nepali_text_from_url ToyMore.paragraphs_flat Toy.detect tt Toy.page_a
    = (w2, Returns t) /\ accepts t = false.
Proof.
  assert (Hhttp : ToyMore.paragraphs_flat tt Toy.page_a = (tt, Ok ToyMore.flat)) by reflexivity.
  assert (Hflat : Forall (fun p => no_break (strip p)) ToyMore.flat).
  { repeat constructor. }
  split; [exact Hflat|].
  exact (single_line_page_rejected ToyMore.paragraphs_flat Toy.detect tt tt Toy.page_a
           ToyMore.flat Hhttp Hflat).
Defined.

Lemma internal_links_exact_witness :
  Toy.hrefs tt Toy.seed = (tt, Ok [Toy.page_a; Toy.page_b; Toy.page_c]) /\
  exists links,
    get_internal_links Toy.hrefs Toy.urljoin Toy.netloc Toy.re_search tt Toy.seed Toy.seed
    = (tt, Returns links) /\
    forall u, u ∈ links <->
              exists href, href ∈ [Toy.page_a; Toy.page_b; Toy.page_c] /\
                           link_of Toy.urljoin Toy.seed href u /\
                           in_scope Toy.netloc Toy.re_search u.
Proof.
  assert (Hhttp : Toy.hrefs tt Toy.seed = (tt, Ok [Toy.page_a; Toy.page_b; Toy.page_c]))
    by reflexivity.
  assert (Hfine : forall href, href ∈ [Toy.page_a; Toy.page_b; Toy.page_c] ->
                               ~ breaks Toy.urljoin Toy.netloc Toy.seed href).
  { intros href _ [_ [Hj|(j & _ & Hn)]]; discriminate. }
  split; [exact Hhttp|].
  exact (internal_links_exact Toy.hrefs Toy.urljoin Toy.netloc Toy.re_search tt tt
           Toy.seed Toy.seed _ Hhttp Hfine).
Defined.

(** The state file left by the crawl of two pages, and a call resumed from
    it under the same budget. *)
Lemma resume_continues_witness :
  Toy.crawl 2 2 false 10 Toy.no_files
  = Some (Finished ToyMore.finished_two GuardFalse Toy.trace_two) /\
  state_files (files ToyMore.finished_two) !! Toy.state_path = Some (Pickled Toy.after_two) /\
  Toy.crawl 2 2 true 1 (files ToyMore.finished_two)
  = Some (Finished ToyMore.finished_two GuardFalse []).
Proof.
  assert (H : Toy.crawl 2 2 false 10 Toy.no_files
              = Some (Finished ToyMore.finished_two GuardFalse Toy.trace_two))
    by (vm_compute; reflexivity).
  assert (Hst : state_files (files ToyMore.finished_two) !! Toy.state_path
                = Some (Pickled Toy.after_two)) by reflexivity.
  assert (Hfull : 2 <= page_count Toy.after_two) by (vm_compute; discriminate).
  split; [exact H|]. split; [exact Hst|].
  refine (eq_trans (proj2 (proj1 (resume_continues Toy.paragraphs Toy.hrefs Toy.detect Toy.urljoin Toy.netloc
                  Toy.re_search Toy.iter_order Toy.shutdown_flag Toy.makedirs Toy.write_file
                  Toy.seed Toy.out Toy.state_path 2 2) tt _ _ Hst) Hfull 0%nat) _).
  vm_compute. reflexivity.
Defined.

Lemma breadth_first_order_witness :
  level_order (queue Toy.seeded) /\
  Toy.loop 2 2 10 Toy.start
  = Some (Machine Toy.after_two tt (Disk Toy.two_pages ∅), GuardFalse, Toy.trace_two) /\
  StronglySorted Z.le (map snd (dequeued Toy.trace_two ++ queue Toy.after_two)).
Proof.
  assert (Hlo : level_order (queue (locals Toy.start))).
  { split.
    - cbn. repeat constructor; lia.
    - intros e [= <-]. repeat constructor; cbn; lia. }
  assert (H : Toy.loop 2 2 10 Toy.start
              = Some (Machine Toy.after_two tt (Disk Toy.two_pages ∅), GuardFalse, Toy.trace_two))
    by (vm_compute; reflexivity).
  split; [exact Hlo|]. split; [exact H|].
  exact (proj1 (breadth_first_order Toy.paragraphs Toy.hrefs Toy.detect Toy.urljoin Toy.netloc
                  Toy.re_search Toy.iter_order Toy.shutdown_flag Toy.makedirs Toy.write_file
                  Toy.seed Toy.out Toy.state_path 2 2 10 _ _ _ _ Hlo H)).
Defined.

Lemma crawled_counts_visited_witness :
  crawled_pages Toy.seeded = Z.of_nat (size (visited Toy.seeded)) /\
  Toy.loop 2 2 10 Toy.start
  = Some (Machine Toy.after_two tt (Disk Toy.two_pages ∅), GuardFalse, Toy.trace_two) /\
  crawled_pages Toy.after_two = Z.of_nat (size (visited Toy.after_two)).
Proof.
  assert (H0 : crawled_pages (locals Toy.start) = Z.of_nat (size (visited (locals Toy.start))))
    by (vm_compute; reflexivity).
  assert (H : Toy.loop 2 2 10 Toy.start
              = Some (Machine Toy.after_two tt (Disk Toy.two_pages ∅), GuardFalse, Toy.trace_two))
    by (vm_compute; reflexivity).
  split; [exact H0|]. split; [exact H|].
  exact (proj1 (crawled_counts_visited Toy.paragraphs Toy.hrefs Toy.detect Toy.urljoin Toy.netloc
                  Toy.re_search Toy.iter_order Toy.shutdown_flag Toy.makedirs Toy.write_file
                  Toy.seed Toy.out Toy.state_path 2 2 10 _ _ _ _ H0 H)).
Defined.

Lemma only_in_scope_processed_witness :
  (forall s u, u ∈ Toy.iter_order s -> u ∈ s) /\
  Toy.crawl 2 2 false 10 Toy.no_files
  = Some (Finished ToyMore.finished_two GuardFalse Toy.trace_two) /\
  Forall (in_scope Toy.netloc Toy.re_search) (processed Toy.trace_two).
Proof.
  assert (Hiter : forall s u, u ∈ Toy.iter_order s -> u ∈ s).
  { intros s u. apply elem_of_elements. }
  assert (H : Toy.crawl 2 2 false 10 Toy.no_files
              = Some (Finished ToyMore.finished_two GuardFalse Toy.trace_two))
    by (vm_compute; reflexivity).
  split; [exact Hiter|]. split; [exact H|].
  exact (proj1 (only_in_scope_processed Toy.paragraphs Toy.hrefs Toy.detect Toy.urljoin Toy.netloc
                  Toy.re_search Toy.iter_order Toy.shutdown_flag Toy.makedirs Toy.write_file
                  Toy.seed Toy.out Toy.state_path 2 2 10 tt Toy.no_files _ _ _ Hiter H)).
Defined.

Lemma unreachable_start_page_witness :
  ToyMore.hrefs_down tt Toy.seed = (tt, Exception) /\
  exists fs',
    ToyMore.crawl_down 2 2 1 Toy.no_files
    = Some (Finished (Machine (CrawlState [] ∅ 0 0) tt fs') GuardFalse []) /\
    text_files fs' = ∅ /\
    state_files fs' = {[Toy.state_path := Pickled (CrawlState [] ∅ 0 0)]}.
Proof.
  assert (Hiter : forall s u, u ∈ Toy.iter_order s -> u ∈ s).
  { intros s u. apply elem_of_elements. }
  assert (Hdown : ToyMore.hrefs_down tt Toy.seed = (tt, Exception)) by reflexivity.
  split; [exact Hdown|].
  destruct (unreachable_start_page Toy.paragraphs ToyMore.hrefs_down Toy.detect Toy.urljoin Toy.netloc
                  Toy.re_search Toy.iter_order Toy.shutdown_flag Toy.makedirs Toy.write_file
                  Toy.seed Toy.out Toy.state_path 2 2 0 tt tt Toy.no_files Hiter Hdown)
    as (fs' & Hrun & Htext & Hstate).
  exists fs'. split; [exact Hrun|]. split; [exact Htext|exact Hstate].
Defined.

Lemma too_deep_never_fetched_witness :
  Forall (fun e => 0 < snd e) (queue Toy.seeded) /\
  Toy.loop 0 2 10 Toy.start = Some (ToyMore.drained, GuardFalse, ToyMore.dropped) /\
  processed ToyMore.dropped = [].
Proof.
  assert (Hdeep : Forall (fun e => 0 < snd e) (queue (locals Toy.start))).
  { repeat constructor. }
  assert (H : Toy.loop 0 2 10 Toy.start = Some (ToyMore.drained, GuardFalse, ToyMore.dropped))
    by (vm_compute; reflexivity).
  split; [exact Hdeep|]. split; [exact H|].
  exact (proj1 (too_deep_never_fetched Toy.paragraphs Toy.hrefs Toy.detect Toy.urljoin Toy.netloc
                  Toy.re_search Toy.iter_order Toy.shutdown_flag Toy.makedirs Toy.write_file
                  Toy.seed Toy.out Toy.state_path 0 2 10 _ _ _ _ Hdeep H)).
Defined.

Lemma interrupt_skips_page_witness :
  ToyMore.loop_cut 2 2 10 Toy.start
  = Some (Machine Toy.when_cut tt (Disk (<[py "out/page_1.txt" := Toy.two_lines]> ∅) ∅),
          Interrupted,
          [Processed (Toy.page_c, 1) [(Toy.page_d, 2)]; Processed (Toy.page_b, 1) []]) /\
  exists trace0 e,
    [Processed (Toy.page_c, 1) [(Toy.page_d, 2)]; Processed (Toy.page_b, 1) []]
    = trace0 ++ [Processed e []] /\
    fst e ∈ visited Toy.when_cut /\
    queue Toy.when_cut = [(Toy.page_a, 1); (Toy.page_d, 2)].
Proof.
  assert (H : ToyMore.loop_cut 2 2 10 Toy.start
              = Some (Machine Toy.when_cut tt
                        (Disk (<[py "out/page_1.txt" := Toy.two_lines]> ∅) ∅),
                      Interrupted,
                      [Processed (Toy.page_c, 1) [(Toy.page_d, 2)];
                       Processed (Toy.page_b, 1) []]))
    by (vm_compute; reflexivity).
  split; [exact H|].
  destruct (interrupt_skips_page Toy.paragraphs_cut Toy.hrefs Toy.detect Toy.urljoin Toy.netloc
                  Toy.re_search Toy.iter_order Toy.shutdown_flag Toy.makedirs Toy.write_file
                  Toy.seed Toy.out Toy.state_path 2 2 10 _ _ _ H)
    as (trace0 & e & q & m1 & Htrace & _ & _ & _ & Hin & _ & _).
  exists trace0, e. split; [exact Htrace|]. split; [exact Hin|reflexivity].
Defined.

Lemma periodic_checkpoint_before_links_witness :
  accepts (Some Toy.two_lines) = true /\
  (page_count (locals Toy.at_99) + 1) `mod` SAVE_INTERVAL = 0 /\
  exists m' st,
    Toy.body 2 (Toy.page_c, 1) Toy.at_99
    = (m', Next, Processed (Toy.page_c, 1) [(Toy.page_d, 2)]) /\
    state_files (files m') !! Toy.state_path = Some (Pickled st) /\
    queue (locals m') = queue st ++ [(Toy.page_d, 2)].
Proof.
  split; [reflexivity|]. split; [reflexivity|].
  destruct (Toy.body 2 (Toy.page_c, 1) Toy.at_99) as [[m' f] l] eqn:Hb.
  assert (Hfl : (f, l) = (Next, Processed (Toy.page_c, 1) [(Toy.page_d, 2)])).
  { vm_compute in Hb. by injection Hb as _ <- <-. }
  injection Hfl as -> ->.
  assert (Hnv : fst (Toy.page_c, 1) ∉ visited (locals Toy.at_99)) by (vm_compute; set_solver).
  assert (Hd : snd (Toy.page_c, 1) <= 2) by (vm_compute; discriminate).
  assert (Hex : extract_nepali_text_from_url Toy.paragraphs Toy.detect
                  (world Toy.at_99) (fst (Toy.page_c, 1)) = (tt, Returns (Some Toy.two_lines)))
    by (vm_compute; reflexivity).
  destruct (periodic_checkpoint_before_links Toy.paragraphs Toy.hrefs Toy.detect Toy.urljoin
              Toy.netloc Toy.re_search Toy.iter_order Toy.makedirs Toy.write_file
              Toy.seed Toy.out Toy.state_path 2
              _ _ _ _ _ _ _ Hnv Hd Hex eq_refl eq_refl eq_refl Hb)
    as (st & fs1 & _ & _ & Hq & _ & _ & _ & Hstate).
  exists m', st. split; [reflexivity|]. split; [exact (Hstate eq_refl)|exact Hq].
Defined.



Lemma checkpoint_only_at_interval_witness :
  (forall k, 0 < k <= 2 -> k `mod` SAVE_INTERVAL <> 0) /\
  Toy.loop 2 2 10 Toy.start
  = Some (Machine Toy.after_two tt (Disk Toy.two_pages ∅), GuardFalse, Toy.trace_two) /\
  state_files (Disk Toy.two_pages ∅) = state_files Toy.no_files.
Proof.
  assert (Hno : forall k, page_count (locals Toy.start) < k
                          <= page_count (locals (Machine Toy.after_two tt (Disk Toy.two_pages ∅))) ->
                          k `mod` SAVE_INTERVAL <> 0).
  { cbn. intros k Hk. assert (k = 1 \/ k = 2) as [-> | ->] by lia; discriminate. }
  assert (H : Toy.loop 2 2 10 Toy.start
              = Some (Machine Toy.after_two tt (Disk Toy.two_pages ∅), GuardFalse, Toy.trace_two))
    by (vm_compute; reflexivity).
  split; [exact Hno|]. split; [exact H|].
  exact (checkpoint_only_at_interval Toy.paragraphs Toy.hrefs Toy.detect Toy.urljoin Toy.netloc
                  Toy.re_search Toy.iter_order Toy.shutdown_flag Toy.makedirs Toy.write_file
                  Toy.seed Toy.out Toy.state_path 2 2 10 _ _ _ _ Hno H).
Defined.
